(** * The timeline editor's document store (src/js/timeline.js)

    A shallow embedding of class [Json] (the document store) and of the
    part of [Timeline.refresh] that materialises the render list, with the
    properties of the store's operations proved over it. *)

From stdpp Require Import gmap strings list fin_maps.
From Stdlib Require Import ZArith NArith Ascii Lia.

Local Open Scope Z_scope.

(** ** Data model *)

(** A point in time: milliseconds since the epoch, what
    [new Date(x).getTime()] gives for a valid date [x]. *)
Definition Timestamp : Type := Z.

(** A group of the forest [data.groups]; [childs] is the source's name.
    The induction principle that reaches into [childs] is [Group_ind']
    below. *)
#[warnings="-register-all"] Inductive Group : Type := mkGroup {
  group_id : string;
  group_name : string;
  group_category : string;
  group_position : Z;
  group_visible : bool;
  group_childs : list Group
}.

(** [VIS.ITEM.TYPE]. *)
Inductive ItemType : Type := BOX | POINT | RANGE | BACKGROUND.

(** An item is a JS object: membership of a property ([ 'start' in data ])
    is [Some], absence is [None]. *)
Record Item : Type := mkItem {
  item_id : option string;
  item_group : option string;
  item_content : option string;
  item_className : option string;
  item_type : option ItemType;
  item_start : option Timestamp;
  item_end : option Timestamp;
  item_description : option string
}.

Record Style : Type := mkStyle {
  style_fg : string;
  style_bg : string;
  style_border : string
}.

Record Era : Type := mkEra {
  era_text : string;
  era_start : Timestamp;
  era_end : Timestamp;
  era_color : string;
  era_visible : bool
}.

Record Marker : Type := mkMarker {
  marker_name : string;
  marker_date : Timestamp
}.

Record Configuration : Type := mkConfiguration {
  conf_locale : option string;
  conf_startDate : option Timestamp;
  conf_endDate : option Timestamp
}.

(** [data.eras] is used as a string-keyed map everywhere, but the value
    that holds it is either a plain object ([{}]) or an array ([[]]) that
    carries the entries as properties; [eras_is_array] tells which. *)
Record Eras : Type := mkEras {
  eras_is_array : bool;
  eras_entries : gmap string Era
}.

(** The in-memory document [this.#data] once [load] has run: the six
    top-level collections are present.  The keys of the three maps are
    uuids and class names; the names every JS object inherits (such as
    [constructor]), which the [in] operator finds too, are not among them. *)
Record Doc : Type := mkDoc {
  configuration : Configuration;
  groups : list Group;
  items : list Item;
  item_categories : gmap string Style;
  eras : Eras;
  markers : gmap string Marker
}.

(** What [JSON.parse] gives for a structured record: any of the six
    top-level fields may be missing (or [null]). *)
Record RawDoc : Type := mkRawDoc {
  raw_configuration : option Configuration;
  raw_groups : option (list Group);
  raw_items : option (list Item);
  raw_item_categories : option (gmap string Style);
  raw_eras : option Eras;
  raw_markers : option (gmap string Marker)
}.

(** The store: the path it loads from, the document, and the number of
    [EVENT.UPDATED] events dispatched so far. *)
Record Json : Type := mkJson {
  path : string;
  data : Doc;
  dispatched : nat
}.

(** [VIS.ITEM.DEFAULT_STYLE] *)
Definition DEFAULT_STYLE : Style :=
  {| style_fg := "#1a1a1a"; style_bg := "#d5ddf6"; style_border := "#97b0f8" |}.

(** Truthiness of a JS string: only the empty string is falsy. *)
Definition truthy (s : string) : bool := negb (String.eqb s "").

(** [this.dispatchEvent(this.#eventUpdated)] *)
Definition dispatchEvent (j : Json) : Json :=
  {| path := path j; data := data j; dispatched := S (dispatched j) |}.

Definition set_data (d : Doc) (j : Json) : Json :=
  {| path := path j; data := d; dispatched := dispatched j |}.

Definition set_groups (gs : list Group) (d : Doc) : Doc :=
  {| configuration := configuration d; groups := gs; items := items d;
     item_categories := item_categories d; eras := eras d;
     markers := markers d |}.

Definition set_items (l : list Item) (d : Doc) : Doc :=
  {| configuration := configuration d; groups := groups d; items := l;
     item_categories := item_categories d; eras := eras d;
     markers := markers d |}.

Definition set_item_categories (c : gmap string Style) (d : Doc) : Doc :=
  {| configuration := configuration d; groups := groups d; items := items d;
     item_categories := c; eras := eras d; markers := markers d |}.

Definition set_eras (e : Eras) (d : Doc) : Doc :=
  {| configuration := configuration d; groups := groups d; items := items d;
     item_categories := item_categories d; eras := e; markers := markers d |}.

Definition set_markers (m : gmap string Marker) (d : Doc) : Doc :=
  {| configuration := configuration d; groups := groups d; items := items d;
     item_categories := item_categories d; eras := eras d; markers := m |}.

(** ** Group operations *)

(** The [for] loop shared by [removeGroup], [renameGroup] and
    [toggleGroupVisibility]: it walks [groups] from index 0; on the first
    group whose id matches it applies the operation's action, dispatches and
    returns true; otherwise it calls the operation on that group (a search
    in its [childs]) and, when that call returns true, dispatches once more
    and returns true.  The result is the returned flag, the array after the
    in-place updates and the number of events dispatched. *)
Section GroupLoop.
Variable id : string.
(** What the match does to the array slot: [[]] for [splice(index, 1)],
    the updated group otherwise. *)
Variable hit : Group -> list Group.
(** The recursive call [this.op(id, group)]. *)
Variable recur : Group -> bool * Group * nat.

Fixpoint group_loop (groups : list Group) : bool * list Group * nat :=
  match groups with
  | [] => (false, [], 0%nat)
  | group :: rest =>
      if String.eqb (group_id group) id then
        (true, hit group ++ rest, 1%nat)
      else
        let '(found, group', n) := recur group in
        if found then (true, group' :: rest, S n)
        else
          let '(r, rest', m) := group_loop rest in
          (r, group' :: rest', (n + m)%nat)
  end.
End GroupLoop.

Definition remove_hit (group : Group) : list Group := [].

Definition rename_hit (name : string) (group : Group) : list Group :=
  [mkGroup (group_id group) name (group_category group)
           (group_position group) (group_visible group) (group_childs group)].

Definition toggle_hit (group : Group) : list Group :=
  [mkGroup (group_id group) (group_name group) (group_category group)
           (group_position group) (negb (group_visible group))
           (group_childs group)].

(** [removeGroup(id, parent)] with a parent: the search in [parent.childs]. *)
Fixpoint removeGroup_in (id : string) (parent : Group) : bool * Group * nat :=
  match parent with
  | mkGroup i n c p v childs =>
      let '(r, childs', k) :=
        group_loop id remove_hit (removeGroup_in id) childs in
      (r, mkGroup i n c p v childs', k)
  end.

(** [removeGroup(id)]: the search from the root, [this.data.groups]. *)
Definition removeGroup (id : string) (j : Json) : bool * Json :=
  let '(r, groups', k) :=
    group_loop id remove_hit (removeGroup_in id) (groups (data j)) in
  (r, mkJson (path j) (set_groups groups' (data j)) (dispatched j + k)%nat).

(** [renameGroup(id, name, parent)] with a parent. *)
Fixpoint renameGroup_in (id name : string) (parent : Group)
  : bool * Group * nat :=
  if negb (truthy name) then (false, parent, 0%nat)
  else
    match parent with
    | mkGroup i n c p v childs =>
        let '(r, childs', k) :=
          group_loop id (rename_hit name) (renameGroup_in id name) childs in
        (r, mkGroup i n c p v childs', k)
    end.

Definition renameGroup (id name : string) (j : Json) : bool * Json :=
  if negb (truthy name) then (false, j)
  else
    let '(r, groups', k) :=
      group_loop id (rename_hit name) (renameGroup_in id name)
                 (groups (data j)) in
    (r, mkJson (path j) (set_groups groups' (data j)) (dispatched j + k)%nat).

(** [toggleGroupVisibility(id, parent)] with a parent. *)
Fixpoint toggleGroupVisibility_in (id : string) (parent : Group)
  : bool * Group * nat :=
  match parent with
  | mkGroup i n c p v childs =>
      let '(r, childs', k) :=
        group_loop id toggle_hit (toggleGroupVisibility_in id) childs in
      (r, mkGroup i n c p v childs', k)
  end.

Definition toggleGroupVisibility (id : string) (j : Json) : bool * Json :=
  let '(r, groups', k) :=
    group_loop id toggle_hit (toggleGroupVisibility_in id) (groups (data j)) in
  (r, mkJson (path j) (set_groups groups' (data j)) (dispatched j + k)%nat).

(** [addGroup(name)]; [uuid] is the value [uuidv4()] returns. *)
Definition addGroup (uuid name : string) (j : Json) : bool * Json :=
  if negb (truthy name) then (false, j)
  else
    let d := data j in
    let group :=
      mkGroup uuid name "" (Z.of_nat (length (groups d)) + 1) true [] in
    (true, dispatchEvent (set_data (set_groups (groups d ++ [group]) d) j)).

(** ** Item operations *)

(** [if('f' in data) item.f = data.f] *)
Definition assign {A : Type} (new old : option A) : option A :=
  match new with
  | Some v => Some v
  | None => old
  end.

(** The category entry [addItem] and [updateItem] create for a class name
    that [item_categories] does not have yet:
    [Object.assign({}, VIS.ITEM.DEFAULT_STYLE)]. *)
Definition ensure_category (className : option string)
    (categories : gmap string Style) : gmap string Style :=
  match className with
  | None => categories
  | Some cn =>
      match categories !! cn with
      | Some _ => categories
      | None => <[cn := DEFAULT_STYLE]> categories
      end
  end.

(** [this.data.items[index].id === data.id] for some index *)
Definition has_item (id : option string) (l : list Item) : bool :=
  existsb (fun item => bool_decide (item_id item = id)) l.

(** [addItem(data)]; [None] is a null or undefined argument. *)
Definition addItem (data_ : option Item) (j : Json) : bool * Json :=
  match data_ with
  | None => (false, j)
  | Some new =>
      match item_id new with
      | None => (false, j)
      | Some _ =>
          let d := data j in
          if has_item (item_id new) (items d) then (false, j)
          else
            let d1 := set_items (items d ++ [new]) d in
            let d2 :=
              set_item_categories
                (ensure_category (item_className new) (item_categories d1))
                d1 in
            (true, dispatchEvent (set_data d2 j))
      end
  end.

(** The field assignments of [updateItem] on the item found. *)
Definition update_fields (new item : Item) : Item :=
  {| item_id := item_id item;
     item_group := assign (item_group new) (item_group item);
     item_content := assign (item_content new) (item_content item);
     item_className := assign (item_className new) (item_className item);
     item_type := assign (item_type new) (item_type item);
     item_start := assign (item_start new) (item_start item);
     item_end := assign (item_end new) (item_end item);
     item_description :=
       assign (item_description new) (item_description item) |}.

(** The loop of [updateItem]: the first item with the id is updated in
    place; [None] when the loop runs to its end. *)
Fixpoint updateItem_loop (new : Item) (l : list Item) : option (list Item) :=
  match l with
  | [] => None
  | item :: rest =>
      if bool_decide (item_id item = item_id new)
      then Some (update_fields new item :: rest)
      else cons item <$> updateItem_loop new rest
  end.

Definition updateItem (data_ : option Item) (j : Json) : bool * Json :=
  match data_ with
  | None => (false, j)
  | Some new =>
      match item_id new with
      | None => (false, j)
      | Some _ =>
          let d := data j in
          match updateItem_loop new (items d) with
          | None => (false, j)
          | Some items' =>
              let d1 := set_items items' d in
              let d2 :=
                set_item_categories
                  (ensure_category (item_className new) (item_categories d1))
                  d1 in
              (true, dispatchEvent (set_data d2 j))
          end
      end
  end.

(** The loop of [removeItem]: [splice(index, 1)] at the first item with
    the id. *)
Fixpoint removeItem_loop (id : option string) (l : list Item)
  : option (list Item) :=
  match l with
  | [] => None
  | item :: rest =>
      if bool_decide (item_id item = id) then Some rest
      else cons item <$> removeItem_loop id rest
  end.

Definition removeItem (data_ : option Item) (j : Json) : bool * Json :=
  match data_ with
  | None => (false, j)
  | Some old =>
      match item_id old with
      | None => (false, j)
      | Some _ =>
          let d := data j in
          match removeItem_loop (item_id old) (items d) with
          | None => (false, j)
          | Some items' =>
              (true, dispatchEvent (set_data (set_items items' d) j))
          end
      end
  end.

(** ** Marker operations *)

Definition addMarker (uuid name : string) (date : Timestamp) (j : Json)
  : bool * Json :=
  let d := data j in
  match markers d !! uuid with
  | Some _ => (false, j)
  | None =>
      (true,
       set_data (set_markers (<[uuid := mkMarker name date]> (markers d)) d) j)
  end.

Definition removeMarker (uuid : string) (j : Json) : bool * Json :=
  let d := data j in
  match markers d !! uuid with
  | None => (false, j)
  | Some _ => (true, set_data (set_markers (delete uuid (markers d)) d) j)
  end.

(** [if(name)] for an argument that is null ([None]) or a string. *)
Definition truthy_arg (name : option string) : bool :=
  match name with
  | Some s => truthy s
  | None => false
  end.

(** [updateMarker(uuid, name, date)]: [name] is null or a string, [date]
    is null or a [Date] (an object, hence truthy). *)
Definition updateMarker (uuid : string) (name : option string)
    (date : option Timestamp) (j : Json) : bool * Json :=
  let d := data j in
  match markers d !! uuid with
  | None => (false, j)
  | Some m =>
      let m1 :=
        if truthy_arg name
        then mkMarker (default (marker_name m) name) (marker_date m)
        else m in
      let m2 :=
        match date with
        | Some t => mkMarker (marker_name m1) t
        | None => m1
        end in
      (true, set_data (set_markers (<[uuid := m2]> (markers d)) d) j)
  end.

(** ** Era operations *)

Definition set_entries (m : gmap string Era) (e : Eras) : Eras :=
  {| eras_is_array := eras_is_array e; eras_entries := m |}.

Definition getEra (uuid : string) (j : Json) : option Era :=
  eras_entries (eras (data j)) !! uuid.

Definition addEra (uuid text : string) (startDate endDate : Timestamp)
    (color : string) (j : Json) : bool * Json :=
  let d := data j in
  let es := eras d in
  match eras_entries es !! uuid with
  | Some _ => (false, j)
  | None =>
      let era := mkEra text startDate endDate color true in
      (true,
       set_data
         (set_eras (set_entries (<[uuid := era]> (eras_entries es)) es) d) j)
  end.

Definition removeEra (uuid : string) (j : Json) : bool * Json :=
  let d := data j in
  let es := eras d in
  match eras_entries es !! uuid with
  | None => (false, j)
  | Some _ =>
      (true,
       set_data (set_eras (set_entries (delete uuid (eras_entries es)) es) d) j)
  end.

(** [updateEra]: every argument is applied when truthy; a string is truthy
    when not empty, a date argument is null or a date. *)
Definition updateEra (uuid : string) (text : option string)
    (startDate endDate : option Timestamp) (color : option string) (j : Json)
  : bool * Json :=
  let d := data j in
  let es := eras d in
  match eras_entries es !! uuid with
  | None => (false, j)
  | Some e =>
      let e' :=
        mkEra (if truthy_arg text then default (era_text e) text
               else era_text e)
              (default (era_start e) startDate)
              (default (era_end e) endDate)
              (if truthy_arg color then default (era_color e) color
               else era_color e)
              (era_visible e) in
      (true,
       set_data
         (set_eras (set_entries (<[uuid := e']> (eras_entries es)) es) d) j)
  end.

Definition toggleEraVisibility (uuid : string) (j : Json) : bool * Json :=
  let d := data j in
  let es := eras d in
  match eras_entries es !! uuid with
  | None => (false, j)
  | Some e =>
      let e' :=
        mkEra (era_text e) (era_start e) (era_end e) (era_color e)
              (negb (era_visible e)) in
      (true,
       set_data
         (set_eras (set_entries (<[uuid := e']> (eras_entries es)) es) d) j)
  end.

(** ** Loading and saving *)

(** The comparison function handed to [groups.sort] in [#sortGroups]. *)
Definition compare_position (a b : Group) : Z :=
  if group_position a <? group_position b then -1
  else if group_position a >? group_position b then 1
  else 0.

(** [Array.prototype.sort(compare)], which is stable: an insertion sort
    that puts an element before the first one it does not exceed. *)
Section ArraySort.
Context {A : Type}.
Variable compare : A -> A -> Z.

Fixpoint sort_insert (a : A) (l : list A) : list A :=
  match l with
  | [] => [a]
  | b :: l' =>
      if compare a b <=? 0 then a :: b :: l' else b :: sort_insert a l'
  end.

Fixpoint array_sort (l : list A) : list A :=
  match l with
  | [] => []
  | a :: l' => sort_insert a (array_sort l')
  end.
End ArraySort.

(** [#sortGroups(groups)]: sorts the array, then the [childs] of each of
    its groups.  Sorting only reads [position], which sorting the childs
    leaves alone, so the childs are sorted first here to keep the recursion
    structural; [sortGroups_sort_first] states the source's order. *)
Fixpoint sortGroups_childs (g : Group) : Group :=
  match g with
  | mkGroup i n c p v childs =>
      mkGroup i n c p v
              (array_sort compare_position (map sortGroups_childs childs))
  end.

Definition sortGroups (groups : list Group) : list Group :=
  array_sort compare_position (map sortGroups_childs groups).

(** How a call ends: with a value or with an exception thrown. *)
Inductive Outcome (A : Type) : Type :=
  | Returns (a : A)
  | Throws.
Arguments Returns {A} a.
Arguments Throws {A}.

Definition set_raw_groups (gs : option (list Group)) (r : RawDoc) : RawDoc :=
  {| raw_configuration := raw_configuration r; raw_groups := gs;
     raw_items := raw_items r; raw_item_categories := raw_item_categories r;
     raw_eras := raw_eras r; raw_markers := raw_markers r |}.

(** [this.#sortGroups()] as [load] calls it, on the record just parsed:
    with no argument [groups] is [this.data.groups], and [groups.sort]
    throws a TypeError when that field is missing. *)
Definition sortGroups_root (r : RawDoc) : Outcome RawDoc :=
  match raw_groups r with
  | None => Throws
  | Some gs => Returns (set_raw_groups (Some (sortGroups gs)) r)
  end.

(** What a path holds, seen through [JSON.parse]: text that parses to a
    structured record, or anything else (no file, no JSON, not a record),
    on which the [try] block of [load] throws. *)
Inductive Stored : Type :=
  | Unparseable
  | Parsed (r : RawDoc).

(** [{}] *)
Definition empty_raw : RawDoc :=
  {| raw_configuration := None; raw_groups := None; raw_items := None;
     raw_item_categories := None; raw_eras := None; raw_markers := None |}.

Definition empty_configuration : Configuration :=
  {| conf_locale := None; conf_startDate := None; conf_endDate := None |}.

(** The "Add missing fields" block of [load].  The default of [eras] is
    [[]], an array, where [item_categories] and [markers] get [{}]. *)
Definition add_missing_fields (r : RawDoc) : Doc :=
  {| configuration := default empty_configuration (raw_configuration r);
     groups := default [] (raw_groups r);
     items := default [] (raw_items r);
     item_categories := default ∅ (raw_item_categories r);
     markers := default ∅ (raw_markers r);
     eras := default {| eras_is_array := true; eras_entries := ∅ |}
                     (raw_eras r) |}.

(** [Utils.read(path)] followed by [JSON.parse]. *)
Definition read_parse (fs : gmap string Stored) (p : string) : Stored :=
  default Unparseable (fs !! p).

(** [load()]: the [try] block parses and sorts, the [catch] block
    substitutes [{}]; then the missing fields are added and one event is
    dispatched. *)
Definition load (fs : gmap string Stored) (j : Json) : Json :=
  let parsed :=
    match read_parse fs (path j) with
    | Unparseable => empty_raw
    | Parsed r =>
        match sortGroups_root r with
        | Returns r' => r'
        | Throws => empty_raw
        end
    end in
  dispatchEvent (set_data (add_missing_fields parsed) j).

(** The constructor: [this.#path = path; this.load()]. *)
Definition new_Json (fs : gmap string Stored) (p : string) : Json :=
  load fs
    {| path := p;
       data := add_missing_fields empty_raw;
       dispatched := 0 |}.

(** A property name that is an array index: the canonical decimal
    numeral of a number below 2^32 - 1. *)
Definition is_digit (c : ascii) : bool :=
  ((48 <=? N_of_ascii c) && (N_of_ascii c <=? 57))%N.

Fixpoint digits_value (s : string) (acc : N) : option N :=
  match s with
  | EmptyString => Some acc
  | String c s' =>
      if is_digit c then digits_value s' (10 * acc + (N_of_ascii c - 48))%N
      else None
  end.

Definition is_array_index (s : string) : bool :=
  match s with
  | EmptyString => false
  | String c s' =>
      if (N_of_ascii c =? 48)%N && negb (String.eqb s' "") then false
      else
        match digits_value s 0%N with
        | Some n => (n <? 4294967295)%N
        | None => false
        end
  end.

(** What [JSON.stringify] keeps of [data.eras]: of an object every entry,
    of an array its elements only, that is the entries under an array
    index; a property of the array under any other name (a uuid) is not
    written.  (Holes between the elements of a sparse array, which are
    written as null, are not represented.) *)
Definition stringify_eras (e : Eras) : Eras :=
  if eras_is_array e
  then set_entries (filter (fun kv => is_array_index kv.1 = true)
                           (eras_entries e)) e
  else e.

(** [JSON.stringify(this.data, null, indent)], seen through [JSON.parse]:
    the record that the text written parses back to. *)
Definition stringify (d : Doc) : RawDoc :=
  {| raw_configuration := Some (configuration d);
     raw_groups := Some (groups d);
     raw_items := Some (items d);
     raw_item_categories := Some (item_categories d);
     raw_eras := Some (stringify_eras (eras d));
     raw_markers := Some (markers d) |}.

(** [save(path)]: the serialised document is written to [path]. *)
Definition save (p : string) (j : Json) (fs : gmap string Stored)
  : gmap string Stored :=
  <[p := Parsed (stringify (data j))]> fs.

(** [isValid()], on the record [this.#data] holds. *)
Definition isValid (r : RawDoc) : bool :=
  bool_decide (is_Some (raw_configuration r))
  && bool_decide (is_Some (raw_groups r))
  && bool_decide (is_Some (raw_items r))
  && bool_decide (is_Some (raw_item_categories r))
  && bool_decide (is_Some (raw_eras r))
  && bool_decide (is_Some (raw_markers r)).

(** A loaded document as the record it is: every field present. *)
Definition as_raw (d : Doc) : RawDoc :=
  {| raw_configuration := Some (configuration d);
     raw_groups := Some (groups d);
     raw_items := Some (items d);
     raw_item_categories := Some (item_categories d);
     raw_eras := Some (eras d);
     raw_markers := Some (markers d) |}.

(** ** The render list of [Timeline.refresh] *)





(** ** Notions the properties are stated with *)

(** The ids of a group's subtree and of a forest, in the order the search
    of [removeGroup], [renameGroup] and [toggleGroupVisibility] meets
    them. *)
Fixpoint group_ids (g : Group) : list string :=
  match g with
  | mkGroup i _ _ _ _ childs => i :: flat_map group_ids childs
  end.

Definition forest_ids (gs : list Group) : list string :=
  flat_map group_ids gs.

(** The nesting level of the first group with the id that the search
    meets: 1 at the root of the forest, one more per parent, 0 when no
    group has the id. *)
Section Level.
Variable id : string.
Variable level_below : Group -> nat.

Fixpoint level_loop (gs : list Group) : nat :=
  match gs with
  | [] => 0%nat
  | g :: rest =>
      if String.eqb (group_id g) id then 1%nat
      else
        match level_below g with
        | O => level_loop rest
        | S n => S (S n)
        end
  end.
End Level.

Fixpoint level_below (id : string) (g : Group) : nat :=
  match g with
  | mkGroup _ _ _ _ _ childs => level_loop id (level_below id) childs
  end.

Definition group_level (id : string) (gs : list Group) : nat :=
  level_loop id (level_below id) gs.

(** Induction on a group with the property available for its childs. *)
Section GroupInduction.
Variable P : Group -> Prop.
Hypothesis step :
  forall i n c p v childs, Forall P childs -> P (mkGroup i n c p v childs).

Fixpoint Group_ind' (g : Group) : P g :=
  match g with
  | mkGroup i n c p v childs =>
      step i n c p v childs
        ((fix all (l : list Group) : Forall P l :=
            match l with
            | [] => List.Forall_nil P
            | x :: l' => List.Forall_cons P x l' (Group_ind' x) (all l')
            end) childs)
  end.
End GroupInduction.


(** ** The mutation calls of the store *)

(** A call of one of the store's mutation methods with its arguments.
    [None] for an item argument is null or undefined. *)
Inductive Call : Type :=
  | CallAddGroup (uuid name : string)
  | CallRemoveGroup (id : string)
  | CallRenameGroup (id name : string)
  | CallToggleGroupVisibility (id : string)
  | CallAddItem (data_ : option Item)
  | CallUpdateItem (data_ : option Item)
  | CallRemoveItem (data_ : option Item)
  | CallAddMarker (uuid name : string) (date : Timestamp)
  | CallRemoveMarker (uuid : string)
  | CallUpdateMarker (uuid : string) (name : option string)
                     (date : option Timestamp)
  | CallAddEra (uuid text : string) (startDate endDate : Timestamp)
               (color : string)
  | CallRemoveEra (uuid : string)
  | CallUpdateEra (uuid : string) (text : option string)
                  (startDate endDate : option Timestamp) (color : option string)
  | CallToggleEraVisibility (uuid : string).

Definition run (c : Call) (j : Json) : bool * Json :=
  match c with
  | CallAddGroup uuid name => addGroup uuid name j
  | CallRemoveGroup id => removeGroup id j
  | CallRenameGroup id name => renameGroup id name j
  | CallToggleGroupVisibility id => toggleGroupVisibility id j
  | CallAddItem data_ => addItem data_ j
  | CallUpdateItem data_ => updateItem data_ j
  | CallRemoveItem data_ => removeItem data_ j
  | CallAddMarker uuid name date => addMarker uuid name date j
  | CallRemoveMarker uuid => removeMarker uuid j
  | CallUpdateMarker uuid name date => updateMarker uuid name date j
  | CallAddEra uuid text startDate endDate color =>
      addEra uuid text startDate endDate color j
  | CallRemoveEra uuid => removeEra uuid j
  | CallUpdateEra uuid text startDate endDate color =>
      updateEra uuid text startDate endDate color j
  | CallToggleEraVisibility uuid => toggleEraVisibility uuid j
  end.

(** No item of the list has the id of the argument, or the argument is
    missing or has no id. *)
Definition item_absent (data_ : option Item) (l : list Item) : Prop :=
  match data_ with
  | None => True
  | Some new =>
      item_id new = None \/ forall x, x ∈ l -> item_id x <> item_id new
  end.

(** The failure conditions of the error policy: a required name that is
    empty, an item argument or item id that is missing, a target id that
    the forest, the list or the map does not have, an id to add that is
    there already. *)
Definition fails (c : Call) (d : Doc) : Prop :=
  match c with
  | CallAddGroup _ name => name = ""
  | CallRemoveGroup id => id ∉ forest_ids (groups d)
  | CallRenameGroup id name => name = "" \/ id ∉ forest_ids (groups d)
  | CallToggleGroupVisibility id => id ∉ forest_ids (groups d)
  | CallAddItem data_ =>
      match data_ with
      | None => True
      | Some new =>
          item_id new = None
          \/ exists x, x ∈ items d /\ item_id x = item_id new
      end
  | CallUpdateItem data_ => item_absent data_ (items d)
  | CallRemoveItem data_ => item_absent data_ (items d)
  | CallAddMarker uuid _ _ => is_Some (markers d !! uuid)
  | CallRemoveMarker uuid => markers d !! uuid = None
  | CallUpdateMarker uuid _ _ => markers d !! uuid = None
  | CallAddEra uuid _ _ _ _ => is_Some (eras_entries (eras d) !! uuid)
  | CallRemoveEra uuid => eras_entries (eras d) !! uuid = None
  | CallUpdateEra uuid _ _ _ _ => eras_entries (eras d) !! uuid = None
  | CallToggleEraVisibility uuid => eras_entries (eras d) !! uuid = None
  end.

(** ** Concrete documents *)

(** The document of a store created on a path that holds nothing. *)
Definition empty_doc : Doc := add_missing_fields empty_raw.

(** A forest of two groups, ["b"] nested in ["a"]. *)
Definition group_b : Group := mkGroup "b" "B" "" 1 true [].
Definition group_a : Group := mkGroup "a" "A" "" 1 true [group_b].

Definition nested_json : Json :=
  {| path := "data.json";
     data := set_groups [group_a] empty_doc;
     dispatched := 0 |}.


(** The result of [if('f' in data) item.f = data.f] read as a relation:
    the field of the result is the payload's when the payload has it, the
    item's own otherwise. *)
Definition field_applied {A : Type} (new old result : option A) : Prop :=
  match new with
  | Some v => result = Some v
  | None => result = old
  end.

(** The payload [{id: id, start: t}]. *)
Definition start_only (id : string) (t : Timestamp) : Item :=
  {| item_id := Some id; item_group := None; item_content := None;
     item_className := None; item_type := None; item_start := Some t;
     item_end := None; item_description := None |}.

Definition set_start (t : Timestamp) (item : Item) : Item :=
  {| item_id := item_id item; item_group := item_group item;
     item_content := item_content item;
     item_className := item_className item; item_type := item_type item;
     item_start := Some t; item_end := item_end item;
     item_description := item_description item |}.

(** A store with one Point item ["i1"] of class ["news"], made by
    [addItem] on a store created on a path that holds nothing. *)
Definition point_i1 : Item :=
  {| item_id := Some "i1"; item_group := Some "a";
     item_content := Some "Release"; item_className := Some "news";
     item_type := Some POINT; item_start := Some 1000; item_end := None;
     item_description := None |}.

Definition point_json : Json :=
  (addItem (Some point_i1) (new_Json ∅ "data.json")).2.



(** The positions of an array of groups ascend. *)
Fixpoint positions_sorted (l : list Group) : bool :=
  match l with
  | [] => true
  | a :: l' =>
      match l' with
      | [] => true
      | b :: _ => (group_position a <=? group_position b) && positions_sorted l'
      end
  end.

(** The positions ascend at every level below the group, and in the
    forest. *)
Fixpoint group_sorted (g : Group) : bool :=
  match g with
  | mkGroup _ _ _ _ _ childs =>
      positions_sorted childs && forallb group_sorted childs
  end.

Definition forest_sorted (gs : list Group) : bool :=
  positions_sorted gs && forallb group_sorted gs.

(** A store whose document has one era, made by [addEra] on a store
    created on a path that holds nothing. *)
Definition era_json : Json :=
  (addEra "e1" "New era" 5000 6000 "#cccccc" (new_Json ∅ "data.json")).2.

(** The record that the text [{"items": [...]}] parses to: items, and no
    other field. *)
Definition items_only : RawDoc :=
  {| raw_configuration := None; raw_groups := None;
     raw_items := Some [point_i1]; raw_item_categories := None;
     raw_eras := None; raw_markers := None |}.



(** The record that the text [{"groups": [], "items": [...]}] parses
    to. *)
Definition items_and_groups : RawDoc :=
  {| raw_configuration := None; raw_groups := Some [];
     raw_items := Some [point_i1]; raw_item_categories := None;
     raw_eras := None; raw_markers := None |}.


From stdpp Require Import pretty.

Local Open Scope Z_scope.

(** * More of the program: notions for further properties *)

(** The (id, name) pairs and the (id, visible) pairs of a forest, in the
    order of the search. *)
Fixpoint group_names (g : Group) : list (string * string) :=
  match g with
  | mkGroup i n _ _ _ childs => (i, n) :: flat_map group_names childs
  end.

Definition forest_names (gs : list Group) : list (string * string) :=
  flat_map group_names gs.

(** A group with the name of every group of its subtree blanked: what is
    left is every other field. *)
Fixpoint forget_name (g : Group) : Group :=
  match g with
  | mkGroup i n c p v childs => mkGroup i "" c p v (map forget_name childs)
  end.

(** The ids of the items that have one. *)
Definition item_ids (l : list Item) : list (option string) := map item_id l.


(** A sequence of mutation calls, run in order. *)
Fixpoint run_all (cs : list Call) (j : Json) : Json :=
  match cs with
  | [] => j
  | c :: cs' => run_all cs' (run c j).2
  end.

(** ** [Timeline.#fromJsonGroups] *)

(** A group in the format of the widget.  [nestedInGroup], [nestedGroups]
    and [showNested] are properties that the record may lack. *)
Record VisGroup : Type := mkVisGroup {
  vis_id : string;
  vis_treeLevel : nat;
  vis_content : string;
  vis_className : string;
  vis_position : Z;
  vis_nestedInGroup : option string;
  vis_nestedGroups : option (list string);
  vis_showNested : option bool
}.

Definition set_nestedInGroup (id : string) (g : VisGroup) : VisGroup :=
  mkVisGroup (vis_id g) (vis_treeLevel g) (vis_content g) (vis_className g)
             (vis_position g) (Some id) (vis_nestedGroups g)
             (vis_showNested g).

(** The "Update parent" block on the parent: [nestedGroups] and
    [showNested] are created when the parent has no [nestedGroups] yet, then
    the id is pushed. *)
Definition nest (id : string) (parent : VisGroup) : VisGroup :=
  match vis_nestedGroups parent with
  | None =>
      mkVisGroup (vis_id parent) (vis_treeLevel parent) (vis_content parent)
                 (vis_className parent) (vis_position parent)
                 (vis_nestedInGroup parent) (Some [id]) (Some true)
  | Some ids =>
      mkVisGroup (vis_id parent) (vis_treeLevel parent) (vis_content parent)
                 (vis_className parent) (vis_position parent)
                 (vis_nestedInGroup parent) (Some (ids ++ [id]))
                 (vis_showNested parent)
  end.

(** The loop of [#fromJsonGroups(groups, treeLevel, parent)]; [parent] is
    null or the widget group being filled, which the loop updates in place,
    so it is given back with the list.  The id drawn with [uuidv4()] is
    overwritten by the id of the group, which every group has. *)
Section FromJsonGroupsLoop.
(** The recursive call [this.#fromJsonGroups(group.childs, level, visGroup)]. *)
Variable recur : Group -> nat -> VisGroup -> VisGroup * list VisGroup.

Fixpoint fromJsonGroups_loop (groups : list Group) (treeLevel : nat)
    (parent : option VisGroup) : option VisGroup * list VisGroup :=
  match groups with
  | [] => (parent, [])
  | group :: rest =>
      if negb (group_visible group)
      then fromJsonGroups_loop rest treeLevel parent
      else
        let visGroup :=
          mkVisGroup (group_id group) treeLevel (group_name group)
                     (group_category group) (group_position group)
                     None None None in
        let '(visGroup, parent) :=
          match parent with
          | Some p =>
              (set_nestedInGroup (vis_id p) visGroup,
               Some (nest (vis_id visGroup) p))
          | None => (visGroup, None)
          end in
        let '(visGroup, childsGroups) := recur group (S treeLevel) visGroup in
        let '(parent, flatGroups) :=
          fromJsonGroups_loop rest treeLevel parent in
        (parent, visGroup :: childsGroups ++ flatGroups)
  end.
End FromJsonGroupsLoop.

(** [#fromJsonGroups(group.childs, treeLevel, visGroup)] *)
Fixpoint fromJsonGroups_in (group : Group) (treeLevel : nat)
    (visGroup : VisGroup) {struct group} : VisGroup * list VisGroup :=
  match group with
  | mkGroup _ _ _ _ _ childs =>
      let '(parent, flatGroups) :=
        fromJsonGroups_loop fromJsonGroups_in childs treeLevel
                            (Some visGroup) in
      (default visGroup parent, flatGroups)
  end.

(** [#fromJsonGroups(groups)], as [refresh] calls it. *)
Definition fromJsonGroups (groups : list Group) : list VisGroup :=
  (fromJsonGroups_loop fromJsonGroups_in groups 1 None).2.

(** The ids of the groups that are to be seen, in the order of a walk
    from the roots: a group that is not visible hides its subtree. *)
Fixpoint shown_ids (g : Group) : list string :=
  match g with
  | mkGroup i _ _ _ v childs =>
      if v then i :: flat_map shown_ids childs else []
  end.

(** The widget groups of a group and its subtree, described without
    updates in place: the level, the parent, and the visible childs. *)
Fixpoint flat_groups (level : nat) (parent : option string) (g : Group)
  {struct g} : list VisGroup :=
  match g with
  | mkGroup i n c p v childs =>
      if v then
        let nested := map group_id (List.filter group_visible childs) in
        mkVisGroup i level n c p parent
                   (match nested with [] => None | _ => Some nested end)
                   (match nested with [] => None | _ => Some true end)
        :: flat_map (flat_groups (S level) (Some i)) childs
      else []
  end.

(** ** [Timeline.#updateRange] and the marker callbacks *)

(** [if(!date)] is false for a stored date: it is there and not 0. *)
Definition date_set (t : option Timestamp) : bool :=
  match t with
  | Some t => negb (t =? 0)
  | None => false
  end.

Definition set_configuration (c : Configuration) (d : Doc) : Doc :=
  {| configuration := c; groups := groups d; items := items d;
     item_categories := item_categories d; eras := eras d;
     markers := markers d |}.

(** What [getItemRange()] returns: each bound is a [Date] or null. *)
Record ItemRange : Type := mkItemRange {
  range_min : option Timestamp;
  range_max : option Timestamp
}.

(** [#updateRange()]; [range] is what the widget reports and [now1],
    [now2] are what the two [Date.now()] give when they are called. *)
Definition updateRange (range : ItemRange) (now1 now2 : Timestamp) (j : Json)
  : Json :=
  if isValid (as_raw (data j)) then
    let c := configuration (data j) in
    let c1 :=
      if date_set (conf_startDate c) then c
      else mkConfiguration (conf_locale c)
                           (Some (default now1 (range_min range)))
                           (conf_endDate c) in
    let c2 :=
      if date_set (conf_endDate c1) then c1
      else mkConfiguration (conf_locale c1) (conf_startDate c1)
                           (Some (default now2 (range_max range))) in
    set_data (set_configuration c2 (data j)) j
  else j.

(** The calls made on the widget for its custom times. *)
Inductive WidgetCall : Type :=
  | AddCustomTime (time : Timestamp) (id : string)
  | SetCustomTimeMarker (title id : string) (editable : bool)
  | RemoveCustomTime (id : string).

(** The properties of a double click that the callback reads. *)
Record ClickProperties : Type := mkClickProperties {
  click_what : string;
  click_customTime : string;
  click_time : Timestamp
}.

(** [#onDoubleClicked(properties)]: the store after the callback and the
    calls made on the widget; [readOnly] is [this.#readOnly] and [uuid] is
    what [uuidv4()] returns. *)
Definition onDoubleClicked (readOnly : bool) (uuid : string)
    (properties : ClickProperties) (j : Json) : Json * list WidgetCall :=
  if readOnly then (j, [])
  else if String.eqb (click_what properties) "custom-time" then
    let id := click_customTime properties in
    let '(removed, j') := removeMarker id j in
    if negb removed then (j', []) else (j', [RemoveCustomTime id])
  else if String.eqb (click_what properties) "axis" then
    let name := "New event" in
    let date := click_time properties in
    let '(added, j') := addMarker uuid name date j in
    if negb added then (j', [])
    else (j', [AddCustomTime (click_time properties) uuid;
               SetCustomTimeMarker name uuid (negb readOnly)])
  else (j, []).

(** [#onMarkerTitleChange(properties)] and [#onMarkerDateChange(properties)] *)
Definition onMarkerTitleChange (readOnly : bool) (id title : string)
    (j : Json) : Json :=
  if readOnly then j else (updateMarker id (Some title) None j).2.

Definition onMarkerDateChange (readOnly : bool) (id : string)
    (time : Timestamp) (j : Json) : Json :=
  if readOnly then j else (updateMarker id None (Some time) j).2.

(** The ids of the custom times that the widget holds after a call, and
    after a list of calls. *)
Definition after_call (ids : gset string) (c : WidgetCall) : gset string :=
  match c with
  | AddCustomTime _ id => {[id]} ∪ ids
  | SetCustomTimeMarker _ _ _ => ids
  | RemoveCustomTime id => ids ∖ {[id]}
  end.

Definition after_calls (ids : gset string) (cs : list WidgetCall)
  : gset string :=
  foldl after_call ids cs.

(** The parent after the ids of its visible childs have been pushed. *)
Definition nest_all (ids : list string) (parent : VisGroup) : VisGroup :=
  foldl (fun p id => nest id p) parent ids.

(** ** [Utils.dateToString] *)

(** What the getters of a [Date] return, in local time: [getMonth()] counts
    from 0 and [getDate()] from 1. *)
Record DateFields : Type := mkDateFields {
  getFullYear : Z;
  getMonth : nat;
  getDate : nat;
  getHours : nat;
  getMinutes : nat;
  getSeconds : nat
}.

(** [dateToString(date)]; [date] is null or a [Date].  [toString()] of an
    integer is its decimal writing, and so is the integer when it is
    concatenated to a string. *)
Definition dateToString (date : option DateFields) : string :=
  match date with
  | None => ""
  | Some date =>
      let year := pretty (getFullYear date) in
      let month :=
        if (String.length (pretty (getMonth date)) =? 1)%nat
        then "0" +:+ pretty (getMonth date + 1)%nat
        else pretty (getMonth date + 1)%nat in
      let day :=
        if (String.length (pretty (getDate date)) =? 1)%nat
        then "0" +:+ pretty (getDate date)
        else pretty (getDate date) in
      let hours :=
        if (String.length (pretty (getHours date)) =? 1)%nat
        then "0" +:+ pretty (getHours date)
        else pretty (getHours date) in
      let min :=
        if (String.length (pretty (getMinutes date)) =? 1)%nat
        then "0" +:+ pretty (getMinutes date)
        else pretty (getMinutes date) in
      let sec :=
        if (String.length (pretty (getSeconds date)) =? 1)%nat
        then "0" +:+ pretty (getSeconds date)
        else pretty (getSeconds date) in
      year +:+ "-" +:+ month +:+ "-" +:+ day +:+ "T" +:+ hours +:+ ":"
           +:+ min +:+ ":" +:+ sec
  end.

(** The fields of a date of the years 1000 to 9999. *)
Definition four_digit_date (d : DateFields) : Prop :=
  (1000 <= getFullYear d <= 9999)%Z
  /\ (getMonth d < 12)%nat
  /\ (1 <= getDate d <= 31)%nat
  /\ (getHours d < 24)%nat
  /\ (getMinutes d < 60)%nat
  /\ (getSeconds d < 60)%nat.

(** The decimal writing of the numbers below 100 has one digit below 10 and
    two from 10 on, and the years 1000 to 9999 have four: checked on each. *)
Definition digits_table : bool :=
  forallb (fun n => String.length (pretty n) =? (if n <? 10 then 1 else 2))%nat
          (seq 0 100)
  && forallb (fun k => String.length (pretty (1000 + Z.of_nat k)%Z) =? 4)%nat
             (seq 0 (90 * 100)).
(** ** The search loop, for any of the three operations *)

Section GroupLoopFacts.
Variable id : string.
Variable hit : Group -> list Group.
Variable op_in : Group -> bool * Group * nat.
(** The operation called with a parent runs the loop on its childs. *)
Hypothesis op_in_unfold : forall i n c p v childs,
  op_in (mkGroup i n c p v childs) =
  let '(r, childs', k) := group_loop id hit op_in childs in
  (r, mkGroup i n c p v childs', k).

Lemma group_loop_absent gs :
  Forall (fun g => id ∉ flat_map group_ids (group_childs g) ->
                   op_in g = (false, g, 0%nat)) gs ->
  id ∉ forest_ids gs ->
  group_loop id hit op_in gs = (false, gs, 0%nat).
Proof.
  induction 1 as [|g gs Hg _ IH]; intros Hid; [reflexivity|].
  unfold forest_ids in Hid. simpl in Hid.
  destruct g as [i n c p v childs]. simpl in *.
  rewrite not_elem_of_cons, not_elem_of_app in Hid.
  destruct Hid as (Hne & Hch & Hrest).
  destruct (String.eqb i id) eqn:E.
  { apply String.eqb_eq in E. congruence. }
  rewrite (Hg Hch). simpl. rewrite (IH Hrest). reflexivity.
Qed.

Lemma op_in_absent g :
  id ∉ flat_map group_ids (group_childs g) -> op_in g = (false, g, 0%nat).
Proof.
  induction g as [i n c p v childs IH] using Group_ind'. simpl. intros Hid.
  rewrite op_in_unfold, (group_loop_absent childs IH Hid). reflexivity.
Qed.

Lemma group_loop_total_absent gs :
  id ∉ forest_ids gs -> group_loop id hit op_in gs = (false, gs, 0%nat).
Proof.
  apply group_loop_absent. apply Forall_forall. intros g _.
  apply op_in_absent.
Qed.

(** The loop finds the id exactly when the forest has it, and dispatches
    as many events as the group found has levels above and including
    it. *)
Lemma group_loop_level gs :
  Forall (fun g => (op_in g).1.1 = bool_decide (level_below id g ≠ 0%nat)
                   /\ (op_in g).2 = level_below id g) gs ->
  (group_loop id hit op_in gs).1.1 = bool_decide (group_level id gs ≠ 0%nat)
  /\ (group_loop id hit op_in gs).2 = group_level id gs.
Proof.
  unfold group_level.
  induction 1 as [|g gs [Hr Hk] _ IH]; [split; reflexivity|].
  simpl. destruct (String.eqb (group_id g) id); [split; reflexivity|].
  destruct (op_in g) as [[found g'] n]. simpl in Hr, Hk. subst n.
  destruct (level_below id g) as [|l]; simpl in Hr; subst found.
  - destruct (group_loop id hit op_in gs) as [[r rest'] m].
    simpl in *. exact IH.
  - split; reflexivity.
Qed.

Lemma op_in_level g :
  (op_in g).1.1 = bool_decide (level_below id g ≠ 0%nat)
  /\ (op_in g).2 = level_below id g.
Proof.
  induction g as [i n c p v childs IH] using Group_ind'.
  rewrite op_in_unfold. simpl.
  destruct (group_loop_level childs IH) as [H1 H2].
  destruct (group_loop id hit op_in childs) as [[r childs'] k].
  simpl in *. auto.
Qed.

Lemma group_loop_dispatches gs :
  (group_loop id hit op_in gs).1.1 = bool_decide (group_level id gs ≠ 0%nat)
  /\ (group_loop id hit op_in gs).2 = group_level id gs.
Proof.
  apply group_loop_level. apply Forall_forall. intros g _.
  apply op_in_level.
Qed.
End GroupLoopFacts.

(** A forest has the id exactly when the id has a level in it. *)
Lemma level_loop_zero id gs :
  Forall (fun g => level_below id g = 0%nat <->
                   id ∉ flat_map group_ids (group_childs g)) gs ->
  level_loop id (level_below id) gs = 0%nat <-> id ∉ forest_ids gs.
Proof.
  induction 1 as [|g gs Hg _ IH]; simpl.
  { split; [intros _; apply not_elem_of_nil | reflexivity]. }
  unfold forest_ids. simpl. destruct g as [i n c p v childs]. simpl in *.
  rewrite not_elem_of_cons, not_elem_of_app.
  destruct (String.eqb i id) eqn:E.
  - apply String.eqb_eq in E. split; [discriminate | intuition congruence].
  - apply String.eqb_neq in E.
    destruct (level_loop id (level_below id) childs) eqn:L.
    + rewrite IH. unfold forest_ids. intuition congruence.
    + split; [discriminate|]. intros (_ & Hch & _).
      apply Hg in Hch. discriminate.
Qed.

Lemma level_below_zero id g :
  level_below id g = 0%nat <-> id ∉ flat_map group_ids (group_childs g).
Proof.
  induction g as [i n c p v childs IH] using Group_ind'. simpl.
  apply (level_loop_zero id childs IH).
Qed.

Lemma group_level_zero id gs :
  group_level id gs = 0%nat <-> id ∉ forest_ids gs.
Proof.
  apply level_loop_zero. apply Forall_forall. intros g _.
  apply level_below_zero.
Qed.

(** ** The three group operations as instances of the loop *)

Lemma removeGroup_in_unfold id i n c p v childs :
  removeGroup_in id (mkGroup i n c p v childs) =
  let '(r, childs', k) :=
    group_loop id remove_hit (removeGroup_in id) childs in
  (r, mkGroup i n c p v childs', k).
Proof. reflexivity. Qed.

Lemma toggleGroupVisibility_in_unfold id i n c p v childs :
  toggleGroupVisibility_in id (mkGroup i n c p v childs) =
  let '(r, childs', k) :=
    group_loop id toggle_hit (toggleGroupVisibility_in id) childs in
  (r, mkGroup i n c p v childs', k).
Proof. reflexivity. Qed.

Lemma renameGroup_in_unfold id name i n c p v childs :
  truthy name = true ->
  renameGroup_in id name (mkGroup i n c p v childs) =
  let '(r, childs', k) :=
    group_loop id (rename_hit name) (renameGroup_in id name) childs in
  (r, mkGroup i n c p v childs', k).
Proof. intros H. simpl. rewrite H. reflexivity. Qed.

Lemma truthy_false s : truthy s = false <-> s = "".
Proof.
  unfold truthy. rewrite negb_false_iff. apply String.eqb_eq.
Qed.

Lemma truthy_true s : truthy s = true <-> s <> "".
Proof.
  unfold truthy. rewrite negb_true_iff. apply String.eqb_neq.
Qed.

(** ** Small facts on the records *)

Lemma set_groups_same d : set_groups (groups d) d = d.
Proof. destruct d; reflexivity. Qed.

Lemma json_same j : mkJson (path j) (data j) (dispatched j) = j.
Proof. destruct j; reflexivity. Qed.

Lemma json_no_change j :
  mkJson (path j) (set_groups (groups (data j)) (data j))
         (dispatched j + 0)%nat = j.
Proof. rewrite set_groups_same, Nat.add_0_r. apply json_same. Qed.

(** The root search of an operation, from what the loop gives. *)
Lemma group_loop_false_absent id hit op_in gs :
  (forall i n c p v childs,
     op_in (mkGroup i n c p v childs) =
     let '(r, childs', k) := group_loop id hit op_in childs in
     (r, mkGroup i n c p v childs', k)) ->
  (group_loop id hit op_in gs).1.1 = false -> id ∉ forest_ids gs.
Proof.
  intros Hunfold Hr. apply group_level_zero.
  destruct (group_loop_dispatches id hit op_in Hunfold gs) as [H1 _].
  rewrite Hr in H1. symmetry in H1. apply bool_decide_eq_false in H1.
  destruct (group_level id gs); [reflexivity | exfalso; apply H1; discriminate].
Qed.


(** ** The item loops *)

Lemma has_item_false id l :
  has_item id l = false <-> forall x, x ∈ l -> item_id x <> id.
Proof.
  unfold has_item. induction l as [|a l IH]; simpl.
  - split; [intros _ x Hx; inversion Hx | reflexivity].
  - rewrite orb_false_iff, IH, bool_decide_eq_false. split.
    + intros [Ha Hl] x Hx. apply elem_of_cons in Hx as [->|Hx]; auto.
    + intros H. split; [apply H; left | intros x Hx; apply H; right; exact Hx].
Qed.

Lemma has_item_true id l :
  has_item id l = true <-> exists x, x ∈ l /\ item_id x = id.
Proof.
  unfold has_item. rewrite existsb_exists. split.
  - intros (x & Hx & Hb). apply bool_decide_eq_true in Hb.
    exists x. split; [apply list_elem_of_In; exact Hx | exact Hb].
  - intros (x & Hx & Hb). exists x.
    split; [apply list_elem_of_In; exact Hx | apply bool_decide_eq_true; exact Hb].
Qed.

Lemma updateItem_loop_None new l :
  updateItem_loop new l = None <-> has_item (item_id new) l = false.
Proof.
  unfold has_item. induction l as [|a l IH]; simpl; [tauto|].
  destruct (bool_decide (item_id a = item_id new)); simpl.
  - split; discriminate.
  - rewrite <- IH. destruct (updateItem_loop new l); simpl; split;
      congruence.
Qed.

Lemma removeItem_loop_None id l :
  removeItem_loop id l = None <-> has_item id l = false.
Proof.
  unfold has_item. induction l as [|a l IH]; simpl; [tauto|].
  destruct (bool_decide (item_id a = id)); simpl.
  - split; discriminate.
  - rewrite <- IH. destruct (removeItem_loop id l); simpl; split;
      congruence.
Qed.

Lemma group_loop_false id hit op_in gs :
  (forall i n c p v childs,
     op_in (mkGroup i n c p v childs) =
     let '(r, childs', k) := group_loop id hit op_in childs in
     (r, mkGroup i n c p v childs', k)) ->
  id ∉ forest_ids gs \/ (group_loop id hit op_in gs).1.1 = false ->
  group_loop id hit op_in gs = (false, gs, 0%nat).
Proof.
  intros Hunfold [H|H].
  - apply group_loop_total_absent; assumption.
  - apply group_loop_total_absent; [assumption|].
    eapply group_loop_false_absent; eassumption.
Qed.

(** ** Failed calls *)

Lemma removeGroup_fails id j :
  id ∉ forest_ids (groups (data j)) \/ (removeGroup id j).1 = false ->
  removeGroup id j = (false, j).
Proof.
  unfold removeGroup. intros H.
  rewrite (group_loop_false id remove_hit (removeGroup_in id)).
  - rewrite json_no_change. reflexivity.
  - apply removeGroup_in_unfold.
  - destruct H as [H|H]; [left; exact H | right].
    destruct (group_loop id remove_hit (removeGroup_in id) (groups (data j)))
      as [[r gs'] k]. exact H.
Qed.





Lemma removeItem_fails data_ j :
  item_absent data_ (items (data j)) \/ (removeItem data_ j).1 = false ->
  removeItem data_ j = (false, j).
Proof.
  unfold removeItem, item_absent. destruct data_ as [old|]; [|reflexivity].
  destruct (item_id old) as [id|] eqn:Hid; [|reflexivity].
  destruct (removeItem_loop (Some id) (items (data j))) eqn:Hloop;
    [|reflexivity].
  intros [[H|H]|H]; try discriminate.
  apply has_item_false, removeItem_loop_None in H. congruence.
Qed.

(** The failure conditions are the only way to get false. *)
Lemma false_only_on_failure c j : (run c j).1 = false -> fails c (data j).
Proof.
  destruct c; simpl.
  - unfold addGroup. destruct (truthy name) eqn:T; simpl; [discriminate|].
    intros _. apply truthy_false. exact T.
  - intros H. apply (group_loop_false_absent id remove_hit (removeGroup_in id));
      [apply removeGroup_in_unfold|].
    unfold removeGroup in H.
    destruct (group_loop _ _ _ _) as [[r gs'] k]. exact H.
  - unfold renameGroup. destruct (truthy name) eqn:T; simpl.
    + intros H. right.
      apply (group_loop_false_absent id (rename_hit name)
               (renameGroup_in id name));
        [intros; apply renameGroup_in_unfold; exact T|].
      destruct (group_loop _ _ _ _) as [[r gs'] k]. exact H.
    + intros _. left. apply truthy_false. exact T.
  - intros H.
    apply (group_loop_false_absent id toggle_hit (toggleGroupVisibility_in id));
      [apply toggleGroupVisibility_in_unfold|].
    unfold toggleGroupVisibility in H.
    destruct (group_loop _ _ _ _) as [[r gs'] k]. exact H.
  - unfold addItem. destruct data_ as [new|]; [|exact (fun _ => I)].
    destruct (item_id new) as [id|] eqn:Hid; [|left; reflexivity].
    destruct (has_item (Some id) (items (data j))) eqn:Hhas; [|discriminate].
    intros _. right. apply has_item_true. exact Hhas.
  - unfold updateItem, item_absent.
    destruct data_ as [new|]; [|exact (fun _ => I)].
    destruct (item_id new) as [id|] eqn:Hid; [|left; reflexivity].
    destruct (updateItem_loop new (items (data j))) eqn:L; [discriminate|].
    intros _. right. apply has_item_false. rewrite <- Hid.
    apply updateItem_loop_None. exact L.
  - unfold removeItem, item_absent.
    destruct data_ as [old|]; [|exact (fun _ => I)].
    destruct (item_id old) as [id|] eqn:Hid; [|left; reflexivity].
    destruct (removeItem_loop (Some id) (items (data j))) eqn:L;
      [discriminate|].
    intros _. right. apply has_item_false, removeItem_loop_None. exact L.
  - unfold addMarker. destruct (markers (data j) !! uuid) eqn:E;
      [eauto | discriminate].
  - unfold removeMarker. destruct (markers (data j) !! uuid);
      [discriminate | reflexivity].
  - unfold updateMarker. destruct (markers (data j) !! uuid);
      [discriminate | reflexivity].
  - unfold addEra. destruct (eras_entries (eras (data j)) !! uuid) eqn:E;
      [eauto | discriminate].
  - unfold removeEra. destruct (eras_entries (eras (data j)) !! uuid);
      [discriminate | reflexivity].
  - unfold updateEra. destruct (eras_entries (eras (data j)) !! uuid);
      [discriminate | reflexivity].
  - unfold toggleEraVisibility.
    destruct (eras_entries (eras (data j)) !! uuid);
      [discriminate | reflexivity].
Qed.



(** ** Events dispatched by the calls *)

Lemma removeGroup_dispatched id j :
  dispatched (removeGroup id j).2 =
  (dispatched j + group_level id (groups (data j)))%nat.
Proof.
  unfold removeGroup.
  destruct (group_loop_dispatches id remove_hit (removeGroup_in id)
              (removeGroup_in_unfold id) (groups (data j))) as [_ H].
  destruct (group_loop id remove_hit (removeGroup_in id) (groups (data j)))
    as [[r gs'] k]. simpl in *. congruence.
Qed.

Lemma toggleGroupVisibility_dispatched id j :
  dispatched (toggleGroupVisibility id j).2 =
  (dispatched j + group_level id (groups (data j)))%nat.
Proof.
  unfold toggleGroupVisibility.
  destruct (group_loop_dispatches id toggle_hit (toggleGroupVisibility_in id)
              (toggleGroupVisibility_in_unfold id) (groups (data j)))
    as [_ H].
  destruct (group_loop id toggle_hit (toggleGroupVisibility_in id)
                       (groups (data j))) as [[r gs'] k].
  simpl in *. congruence.
Qed.

Lemma renameGroup_dispatched id name j :
  name <> "" ->
  dispatched (renameGroup id name j).2 =
  (dispatched j + group_level id (groups (data j)))%nat.
Proof.
  intros Hname. apply truthy_true in Hname. unfold renameGroup.
  rewrite Hname. simpl.
  destruct (group_loop_dispatches id (rename_hit name)
              (renameGroup_in id name)
              (fun i n c p v childs =>
                 renameGroup_in_unfold id name i n c p v childs Hname)
              (groups (data j))) as [_ H].
  destruct (group_loop id (rename_hit name) (renameGroup_in id name)
                       (groups (data j))) as [[r gs'] k].
  simpl in *. congruence.
Qed.

(** The calls that do not search the forest dispatch one event when they
    succeed; the marker and era calls dispatch none. *)
Lemma flat_call_dispatched c j :
  (run c j).1 = true ->
  match c with
  | CallAddGroup _ _ | CallAddItem _ | CallUpdateItem _ | CallRemoveItem _ =>
      dispatched (run c j).2 = S (dispatched j)
  | CallRemoveGroup _ | CallRenameGroup _ _ | CallToggleGroupVisibility _ =>
      True
  | _ => dispatched (run c j).2 = dispatched j
  end.
Proof.
  destruct c; simpl; try exact (fun _ => I).
  - unfold addGroup. destruct (negb (truthy name)); [discriminate|].
    reflexivity.
  - unfold addItem. destruct data_ as [new|]; [|discriminate].
    destruct (item_id new); [|discriminate].
    destruct (has_item _ _); [discriminate|]. reflexivity.
  - unfold updateItem. destruct data_ as [new|]; [|discriminate].
    destruct (item_id new); [|discriminate].
    destruct (updateItem_loop _ _); [|discriminate]. reflexivity.
  - unfold removeItem. destruct data_ as [old|]; [|discriminate].
    destruct (item_id old); [|discriminate].
    destruct (removeItem_loop _ _); [|discriminate]. reflexivity.
  - unfold addMarker. destruct (markers (data j) !! uuid); reflexivity.
  - unfold removeMarker. destruct (markers (data j) !! uuid); reflexivity.
  - unfold updateMarker. destruct (markers (data j) !! uuid); reflexivity.
  - unfold addEra. destruct (_ !! uuid); reflexivity.
  - unfold removeEra. destruct (_ !! uuid); reflexivity.
  - unfold updateEra. destruct (_ !! uuid); reflexivity.
  - unfold toggleEraVisibility. destruct (_ !! uuid); reflexivity.
Qed.

Lemma load_dispatched fs j : dispatched (load fs j) = S (dispatched j).
Proof. reflexivity. Qed.

(** C1. On the forest where group ["b"] is nested in group ["a"], each of
    [removeGroup], [renameGroup] and [toggleGroupVisibility] called on
    ["b"] succeeds and dispatches two events, one in the call on the parent
    and one in the call from the root, where one is expected. *)
Theorem nested_group_call_dispatches_twice :
  (removeGroup "b" nested_json).1 = true
  /\ dispatched (removeGroup "b" nested_json).2
     = (dispatched nested_json + 2)%nat
  /\ (renameGroup "b" "C" nested_json).1 = true
  /\ dispatched (renameGroup "b" "C" nested_json).2
     = (dispatched nested_json + 2)%nat
  /\ (toggleGroupVisibility "b" nested_json).1 = true
  /\ dispatched (toggleGroupVisibility "b" nested_json).2
     = (dispatched nested_json + 2)%nat.
Proof. repeat split; reflexivity. Qed.

(** ** Toggling twice *)

Lemma op_in_false id hit op_in g :
  (forall i n c p v childs,
     op_in (mkGroup i n c p v childs) =
     let '(r, childs', k) := group_loop id hit op_in childs in
     (r, mkGroup i n c p v childs', k)) ->
  (op_in g).1.1 = false -> op_in g = (false, g, 0%nat).
Proof.
  intros Hunfold Hr. apply (op_in_absent id hit op_in Hunfold).
  apply level_below_zero.
  destruct (op_in_level id hit op_in Hunfold g) as [H1 _].
  rewrite Hr in H1. symmetry in H1. apply bool_decide_eq_false in H1.
  destruct (level_below id g); [reflexivity | exfalso; apply H1; discriminate].
Qed.

Lemma op_in_keeps_id id hit op_in g :
  (forall i n c p v childs,
     op_in (mkGroup i n c p v childs) =
     let '(r, childs', k) := group_loop id hit op_in childs in
     (r, mkGroup i n c p v childs', k)) ->
  group_id (op_in g).1.2 = group_id g.
Proof.
  intros Hunfold. destruct g as [i n c p v childs]. rewrite Hunfold.
  destruct (group_loop id hit op_in childs) as [[r childs'] k]. reflexivity.
Qed.






(** ** Updating an item *)

Lemma updateItem_loop_Some new l l' :
  updateItem_loop new l = Some l' ->
  exists pre it post,
    l = pre ++ it :: post
    /\ (forall x, x ∈ pre -> item_id x <> item_id new)
    /\ item_id it = item_id new
    /\ l' = pre ++ update_fields new it :: post.
Proof.
  revert l'. induction l as [|a l IH]; intros l'; simpl; [discriminate|].
  destruct (bool_decide (item_id a = item_id new)) eqn:E.
  - intros [= <-]. apply bool_decide_eq_true in E.
    exists [], a, l. repeat split; auto. intros x Hx. inversion Hx.
  - apply bool_decide_eq_false in E.
    destruct (updateItem_loop new l) as [l1|]; [|discriminate].
    intros [= <-]. destruct (IH l1 eq_refl) as (pre & it & post & -> & Hpre & Hit & ->).
    exists (a :: pre), it, post. repeat split; auto.
    intros x Hx. apply elem_of_cons in Hx as [->|Hx]; auto.
Qed.

Lemma field_applied_assign {A : Type} (new old : option A) :
  field_applied new old (assign new old).
Proof. destruct new; reflexivity. Qed.

(** C5. [updateItem] with a payload that has an id: when no item has the
    id it returns false and changes nothing; otherwise it returns true, the
    first item with the id gets exactly the fields the payload has and keeps
    its other fields, every other item is as before, and outside the items
    only [item_categories] can differ.  With the payload [{id, start}] the
    item found gets the new [start] and nothing else changes in the
    document. *)
Theorem updateItem_applies_present_fields
    (new : Item) (id : string) (j : Json) :
  item_id new = Some id ->
  ((forall x, x ∈ items (data j) -> item_id x <> Some id)
   /\ updateItem (Some new) j = (false, j))
  \/
  (exists pre it post it',
     items (data j) = pre ++ it :: post
     /\ (forall x, x ∈ pre -> item_id x <> Some id)
     /\ item_id it = Some id
     /\ (updateItem (Some new) j).1 = true
     /\ items (data (updateItem (Some new) j).2) = pre ++ it' :: post
     /\ item_id it' = Some id
     /\ field_applied (item_group new) (item_group it) (item_group it')
     /\ field_applied (item_content new) (item_content it) (item_content it')
     /\ field_applied (item_className new) (item_className it)
                      (item_className it')
     /\ field_applied (item_type new) (item_type it) (item_type it')
     /\ field_applied (item_start new) (item_start it) (item_start it')
     /\ field_applied (item_end new) (item_end it) (item_end it')
     /\ field_applied (item_description new) (item_description it)
                      (item_description it')
     /\ set_item_categories (item_categories (data j))
          (set_items (items (data j)) (data (updateItem (Some new) j).2))
        = data j
     /\ (forall t, new = start_only id t ->
           it' = set_start t it
           /\ (updateItem (Some new) j).2
              = dispatchEvent
                  (set_data
                     (set_items (pre ++ set_start t it :: post) (data j)) j))).
Proof.
  intros Hid.
  destruct (updateItem_loop new (items (data j))) as [l'|] eqn:L.
  - right. destruct (updateItem_loop_Some _ _ _ L)
      as (pre & it & post & Hl & Hpre & Hit & ->).
    rewrite Hid in Hpre, Hit.
    exists pre, it, post, (update_fields new it).
    unfold updateItem. rewrite Hid, L. simpl.
    repeat split; auto using field_applied_assign.
    + destruct j as [p [cf gs its cats es ms] n]. reflexivity.
    + subst new. destruct it; reflexivity.
    + subst new. simpl.
      destruct j as [p [cf gs its cats es ms] n]. simpl.
      destruct it; reflexivity.
  - left. split.
    + apply updateItem_loop_None in L. rewrite has_item_false in L.
      rewrite Hid in L. exact L.
    + unfold updateItem. rewrite Hid, L. reflexivity.
Qed.

Lemma updateItem_applies_present_fields_witness :
  item_id (start_only "i1" 2000) = Some "i1"
  /\ (updateItem (Some (start_only "i1" 2000)) point_json).1 = true.
Proof.
  split; [reflexivity|].
  destruct (updateItem_applies_present_fields
              (start_only "i1" 2000) "i1" point_json eq_refl)
    as [[_ H]|(pre & it & post & it' & _ & _ & _ & H & _)].
  - vm_compute in H. discriminate H.
  - exact H.
Defined.

(** ** Categories *)







(** ** Witnesses of the failure and toggle theorems *)



(** ** Markers *)

(** C8. After a successful [addMarker(uuid, name, date)], a second
    [addMarker] on the same uuid returns false and the marker keeps the name
    and the date of the first call; and [addMarker], [removeMarker] and
    [updateMarker] dispatch no event, whether they succeed or not. *)
Theorem addMarker_again_is_rejected
    (uuid name name' : string) (date date' : Timestamp) (j : Json) :
  (addMarker uuid name date j).1 = true ->
  (addMarker uuid name' date' (addMarker uuid name date j).2).1 = false
  /\ markers (data (addMarker uuid name' date'
                      (addMarker uuid name date j).2).2) !! uuid
     = Some (mkMarker name date)
  /\ (forall u n d j', dispatched (addMarker u n d j').2 = dispatched j')
  /\ (forall u j', dispatched (removeMarker u j').2 = dispatched j')
  /\ (forall u n d j', dispatched (updateMarker u n d j').2 = dispatched j').
Proof.
  intros Hok. unfold addMarker in *.
  destruct (markers (data j) !! uuid) eqn:E; [discriminate|]. simpl.
  rewrite lookup_insert_eq. simpl. rewrite lookup_insert_eq.
  repeat split.
  - intros u n d j'. destruct (markers (data j') !! u); reflexivity.
  - intros u j'. unfold removeMarker.
    destruct (markers (data j') !! u); reflexivity.
  - intros u n d j'. unfold updateMarker.
    destruct (markers (data j') !! u); reflexivity.
Qed.

Lemma addMarker_again_is_rejected_witness :
  (addMarker "m1" "Launch" 1000 (new_Json ∅ "data.json")).1 = true
  /\ (addMarker "m1" "Other" 2000
        (addMarker "m1" "Launch" 1000 (new_Json ∅ "data.json")).2).1 = false
  /\ markers (data (addMarker "m1" "Other" 2000
                      (addMarker "m1" "Launch" 1000
                         (new_Json ∅ "data.json")).2).2) !! "m1"
     = Some (mkMarker "Launch" 1000).
Proof.
  assert (H : (addMarker "m1" "Launch" 1000 (new_Json ∅ "data.json")).1
              = true) by reflexivity.
  split; [exact H|].
  destruct (addMarker_again_is_rejected "m1" "Launch" "Other" 1000 2000
              (new_Json ∅ "data.json") H) as (H1 & H2 & _).
  split; [exact H1 | exact H2].
Defined.

(** ** Eras *)



(** ** The render list *)

Lemma isValid_as_raw d : isValid (as_raw d) = true.
Proof. reflexivity. Qed.








(** ** Sorting the groups *)

Lemma compare_position_le a b :
  compare_position a b <= 0 <-> group_position a <= group_position b.
Proof.
  unfold compare_position.
  destruct (group_position a <? group_position b) eqn:L.
  - apply Z.ltb_lt in L. lia.
  - apply Z.ltb_ge in L.
    destruct (group_position a >? group_position b) eqn:G.
    + apply Z.gtb_lt in G. lia.
    + rewrite Z.gtb_ltb in G. apply Z.ltb_ge in G. lia.
Qed.

Lemma sortGroups_childs_position g :
  group_position (sortGroups_childs g) = group_position g.
Proof. destruct g; reflexivity. Qed.

Lemma compare_position_sortGroups_childs a b :
  compare_position (sortGroups_childs a) (sortGroups_childs b)
  = compare_position a b.
Proof.
  unfold compare_position. rewrite !sortGroups_childs_position. reflexivity.
Qed.

Section SortMap.
Context {A : Type}.
Variable compare : A -> A -> Z.
Variable f : A -> A.
Hypothesis compare_f : forall a b, compare (f a) (f b) = compare a b.

Lemma sort_insert_map a l :
  sort_insert compare (f a) (map f l) = map f (sort_insert compare a l).
Proof.
  induction l as [|b l IH]; simpl; [reflexivity|].
  rewrite compare_f. destruct (compare a b <=? 0); simpl; [reflexivity|].
  rewrite IH. reflexivity.
Qed.

Lemma array_sort_map l :
  array_sort compare (map f l) = map f (array_sort compare l).
Proof.
  induction l as [|a l IH]; simpl; [reflexivity|].
  rewrite IH. apply sort_insert_map.
Qed.
End SortMap.

(** The order of the source: the array is sorted, then the childs of each
    of its groups are. *)
Lemma sortGroups_sort_first gs :
  sortGroups gs = map sortGroups_childs (array_sort compare_position gs).
Proof.
  unfold sortGroups. apply array_sort_map.
  apply compare_position_sortGroups_childs.
Qed.

Lemma sortGroups_childs_unfold i n c p v childs :
  sortGroups_childs (mkGroup i n c p v childs)
  = mkGroup i n c p v (sortGroups childs).
Proof. reflexivity. Qed.

Lemma sort_insert_Permutation {A : Type} (compare : A -> A -> Z) a l :
  sort_insert compare a l ≡ₚ a :: l.
Proof.
  induction l as [|b l IH]; simpl; [reflexivity|].
  destruct (compare a b <=? 0); [reflexivity|].
  rewrite IH. apply Permutation_swap.
Qed.

(** Sorting an array rearranges it. *)
Lemma array_sort_Permutation {A : Type} (compare : A -> A -> Z) l :
  array_sort compare l ≡ₚ l.
Proof.
  induction l as [|a l IH]; simpl; [reflexivity|].
  rewrite sort_insert_Permutation, IH. reflexivity.
Qed.

(** The sort is stable: the groups of one position keep their order. *)
Lemma sort_insert_same_position p a l :
  filter (fun g => group_position g = p) (sort_insert compare_position a l)
  = filter (fun g => group_position g = p) (a :: l).
Proof.
  induction l as [|b l IH]; simpl; [reflexivity|].
  destruct (compare_position a b <=? 0) eqn:C; [reflexivity|].
  apply Z.leb_gt in C.
  assert (Hlt : group_position b < group_position a).
  { destruct (Z.le_gt_cases (group_position a) (group_position b)) as [H|H];
      [|lia]. apply compare_position_le in H. lia. }
  rewrite (filter_cons _ b), IH, !(filter_cons _ a), (filter_cons _ b).
  repeat case_decide; try reflexivity. lia.
Qed.

Lemma array_sort_stable p l :
  filter (fun g => group_position g = p) (array_sort compare_position l)
  = filter (fun g => group_position g = p) l.
Proof.
  induction l as [|a l IH]; simpl; [reflexivity|].
  rewrite sort_insert_same_position, !(filter_cons _ a), IH. reflexivity.
Qed.

Lemma sort_insert_sorted a l :
  positions_sorted l = true ->
  positions_sorted (sort_insert compare_position a l) = true.
Proof.
  induction l as [|b l IH]; simpl; [reflexivity|]. intros Hs.
  destruct (compare_position a b <=? 0) eqn:C.
  - apply Z.leb_le, compare_position_le in C.
    change (positions_sorted (a :: b :: l) = true).
    simpl. apply andb_true_iff. split; [apply Z.leb_le; exact C | exact Hs].
  - apply Z.leb_gt in C.
    assert (Hba : group_position b <= group_position a).
    { destruct (Z.le_gt_cases (group_position a) (group_position b)) as [H|H];
        [|lia]. apply compare_position_le in H. lia. }
    assert (Hl : positions_sorted l = true).
    { destruct l as [|c l']; [reflexivity|].
      apply andb_true_iff in Hs as [_ Hs]. exact Hs. }
    specialize (IH Hl).
    destruct l as [|c l']; simpl.
    + rewrite andb_true_r. apply Z.leb_le. exact Hba.
    + simpl in IH. apply andb_true_iff in Hs as [Hbc Hs].
      destruct (compare_position a c <=? 0); simpl in *.
      * rewrite IH, andb_true_r. apply Z.leb_le. exact Hba.
      * rewrite Hbc. exact IH.
Qed.

Lemma array_sort_sorted l :
  positions_sorted (array_sort compare_position l) = true.
Proof.
  induction l as [|a l IH]; simpl; [reflexivity|].
  apply sort_insert_sorted. exact IH.
Qed.

Lemma positions_sorted_cons a b l :
  positions_sorted (a :: b :: l)
  = (group_position a <=? group_position b) && positions_sorted (b :: l).
Proof. reflexivity. Qed.

Lemma positions_sorted_map_childs l :
  positions_sorted (map sortGroups_childs l) = positions_sorted l.
Proof.
  induction l as [|a l IH]; [reflexivity|].
  destruct l as [|b l']; [reflexivity|].
  change (map sortGroups_childs (a :: b :: l'))
    with (sortGroups_childs a :: map sortGroups_childs (b :: l')).
  change (map sortGroups_childs (b :: l'))
    with (sortGroups_childs b :: map sortGroups_childs l') in *.
  rewrite !positions_sorted_cons, !sortGroups_childs_position, IH.
  reflexivity.
Qed.

(** An array in ascending order is left as it is. *)
Lemma sort_insert_head a l :
  positions_sorted (a :: l) = true ->
  sort_insert compare_position a l = a :: l.
Proof.
  destruct l as [|b l]; simpl; [reflexivity|].
  intros H. apply andb_true_iff in H as [H _]. apply Z.leb_le in H.
  apply compare_position_le, Z.leb_le in H. rewrite H. reflexivity.
Qed.

Lemma array_sort_sorted_id l :
  positions_sorted l = true -> array_sort compare_position l = l.
Proof.
  induction l as [|a l IH]; simpl; [reflexivity|]. intros H.
  assert (Hl : positions_sorted l = true).
  { destruct l as [|b l']; [reflexivity|].
    apply andb_true_iff in H as [_ H]. exact H. }
  rewrite (IH Hl). apply sort_insert_head. exact H.
Qed.

(** After [sortGroups] the positions ascend at every level. *)
Lemma sortGroups_childs_sorted g : group_sorted (sortGroups_childs g) = true.
Proof.
  induction g as [i n c p v childs IH] using Group_ind'.
  rewrite sortGroups_childs_unfold. simpl.
  rewrite sortGroups_sort_first at 1.
  rewrite positions_sorted_map_childs, array_sort_sorted. simpl.
  apply forallb_forall. intros g Hg.
  unfold sortGroups in Hg.
  apply (Permutation_in _ (array_sort_Permutation _ _)) in Hg.
  apply in_map_iff in Hg as (g0 & <- & Hg0).
  rewrite Forall_forall in IH. apply IH. apply list_elem_of_In. exact Hg0.
Qed.

Lemma sortGroups_sorted gs : forest_sorted (sortGroups gs) = true.
Proof.
  unfold forest_sorted. rewrite sortGroups_sort_first at 1.
  rewrite positions_sorted_map_childs, array_sort_sorted. simpl.
  apply forallb_forall. intros g Hg.
  rewrite sortGroups_sort_first in Hg.
  apply in_map_iff in Hg as (g0 & <- & _). apply sortGroups_childs_sorted.
Qed.

(** A forest whose positions ascend at every level is left as it is. *)
Lemma sortGroups_childs_sorted_id g :
  group_sorted g = true -> sortGroups_childs g = g.
Proof.
  induction g as [i n c p v childs IH] using Group_ind'. simpl.
  intros H. apply andb_true_iff in H as [Hp Hc]. f_equal.
  assert (Hmap : map sortGroups_childs childs = childs).
  { rewrite forallb_forall in Hc. rewrite Forall_forall in IH.
    rewrite <- (map_id childs) at 2. apply map_ext_in.
    intros g Hg. apply IH; [apply list_elem_of_In; exact Hg | apply Hc; exact Hg]. }
  rewrite Hmap. apply array_sort_sorted_id. exact Hp.
Qed.

Lemma sortGroups_sorted_id gs :
  forest_sorted gs = true -> sortGroups gs = gs.
Proof.
  unfold forest_sorted, sortGroups. intros H.
  apply andb_true_iff in H as [Hp Hc].
  assert (Hmap : map sortGroups_childs gs = gs).
  { rewrite forallb_forall in Hc.
    rewrite <- (map_id gs) at 2. apply map_ext_in.
    intros g Hg. apply sortGroups_childs_sorted_id. apply Hc. exact Hg. }
  rewrite Hmap. apply array_sort_sorted_id. exact Hp.
Qed.

(** ** Loading *)

Lemma load_unparseable fs j :
  read_parse fs (path j) = Unparseable -> data (load fs j) = empty_doc.
Proof. unfold load. intros ->. reflexivity. Qed.

(** A record without [groups] makes [#sortGroups] throw, and the document
    is the empty one. *)
Lemma load_without_groups fs j r :
  read_parse fs (path j) = Parsed r -> raw_groups r = None ->
  data (load fs j) = empty_doc.
Proof.
  unfold load, sortGroups_root. intros -> ->. reflexivity.
Qed.

(** A record with [groups]: the fields it has are kept, the groups sorted,
    the fields it lacks added. *)
Lemma load_with_groups fs j r gs :
  read_parse fs (path j) = Parsed r -> raw_groups r = Some gs ->
  data (load fs j) =
  {| configuration := default empty_configuration (raw_configuration r);
     groups := sortGroups gs;
     items := default [] (raw_items r);
     item_categories := default ∅ (raw_item_categories r);
     eras := default {| eras_is_array := true; eras_entries := ∅ |}
                     (raw_eras r);
     markers := default ∅ (raw_markers r) |}.
Proof.
  unfold load, sortGroups_root. intros -> ->. reflexivity.
Qed.

Lemma load_groups_sorted fs j : forest_sorted (groups (data (load fs j))) = true.
Proof.
  unfold load.
  destruct (read_parse fs (path j)) as [|r]; [reflexivity|].
  unfold sortGroups_root. destruct (raw_groups r) as [gs|]; [|reflexivity].
  simpl. apply sortGroups_sorted.
Qed.

(** What [load] does, case by case: it dispatches one event, and when
    the stored text does not parse to a record, or the record has no
    [groups], every collection of the document is empty; when the record has
    [groups], every top-level field it has is kept, the groups being sorted
    by position at every level, and of [configuration], [items],
    [item_categories] and [markers] those it lacks are added empty. *)
Lemma load_cases (fs : gmap string Stored) (j : Json) :
  dispatched (load fs j) = S (dispatched j)
  /\ forest_sorted (groups (data (load fs j))) = true
  /\ match read_parse fs (path j) with
     | Parsed {| raw_configuration := c; raw_groups := Some gs;
                 raw_items := l; raw_item_categories := cats;
                 raw_eras := es; raw_markers := ms |} =>
         configuration (data (load fs j)) = default empty_configuration c
         /\ groups (data (load fs j)) = sortGroups gs
         /\ items (data (load fs j)) = default [] l
         /\ item_categories (data (load fs j)) = default ∅ cats
         /\ markers (data (load fs j)) = default ∅ ms
         /\ (forall e, es = Some e -> eras (data (load fs j)) = e)
     | _ =>
         configuration (data (load fs j)) = empty_configuration
         /\ groups (data (load fs j)) = []
         /\ items (data (load fs j)) = []
         /\ item_categories (data (load fs j)) = ∅
         /\ markers (data (load fs j)) = ∅
         /\ eras_entries (eras (data (load fs j))) = ∅
     end.
Proof.
  split; [reflexivity|]. split; [apply load_groups_sorted|].
  unfold load, sortGroups_root.
  destruct (read_parse fs (path j)) as [|[c [gs|] l cats es ms]]; simpl.
  - repeat split.
  - repeat split. intros e ->. reflexivity.
  - repeat split.
Qed.

(** C4. Two stored records on which [load] does not do what is claimed.
    The first has items and no [groups] field: the sort runs inside the
    [try] block, before the missing fields are added, and throws on the
    missing [groups]; the document is replaced by the empty one and the
    items the record had are not kept.  The second has [groups] and no
    [eras]: its items are kept, and the [eras] that [load] adds is an
    array, where the [item_categories] and [markers] it adds are
    objects. *)
Theorem load_loses_items_and_adds_eras_as_array :
  raw_items items_only = Some [point_i1]
  /\ items (data (load {[ "data.json" := Parsed items_only ]}
                       (new_Json ∅ "data.json"))) = []
  /\ items (data (load {[ "data.json" := Parsed items_and_groups ]}
                       (new_Json ∅ "data.json"))) = [point_i1]
  /\ eras_is_array
       (eras (data (load {[ "data.json" := Parsed items_and_groups ]}
                         (new_Json ∅ "data.json")))) = true.
Proof. repeat split; reflexivity. Qed.

(** ** Saving, then loading *)

Lemma read_parse_save p j fs :
  read_parse (save p j fs) p = Parsed (stringify (data j)).
Proof. unfold read_parse, save. rewrite lookup_insert_eq. reflexivity. Qed.

Lemma stringify_eras_kept e :
  eras_is_array e = false \/ eras_entries e = ∅ -> stringify_eras e = e.
Proof.
  unfold stringify_eras. intros [->|H]; [reflexivity|].
  destruct e as [[] m]; simpl in *; [|reflexivity].
  subst m. unfold set_entries. simpl. rewrite map_filter_empty. reflexivity.
Qed.

(** When [eras] is held by an object, or is empty, [save] to the store's
    path followed by [load] gives the document back with its groups sorted
    at every level, and gives it back as it is when the positions ascend
    already. *)
Lemma load_after_save fs j :
  eras_is_array (eras (data j)) = false \/ eras_entries (eras (data j)) = ∅ ->
  data (load (save (path j) j fs) j)
  = set_groups (sortGroups (groups (data j))) (data j).
Proof.
  intros He. apply stringify_eras_kept in He.
  unfold load. rewrite read_parse_save.
  unfold sortGroups_root, stringify, add_missing_fields, set_groups.
  simpl. rewrite He. reflexivity.
Qed.

Lemma load_after_save_sorted fs j :
  eras_is_array (eras (data j)) = false \/ eras_entries (eras (data j)) = ∅ ->
  forest_sorted (groups (data j)) = true ->
  data (load (save (path j) j fs) j) = data j.
Proof.
  intros He Hs. rewrite (load_after_save fs j He).
  rewrite (sortGroups_sorted_id _ Hs). apply set_groups_same.
Qed.

(** An era held as a property of an array under a name that is not an
    array index does not come back from [save] and [load]. *)
Lemma array_property_is_not_saved fs j uuid :
  eras_is_array (eras (data j)) = true ->
  is_array_index uuid = false ->
  getEra uuid (load (save (path j) j fs) j) = None.
Proof.
  intros Harr Hidx. unfold getEra, load. rewrite read_parse_save.
  unfold sortGroups_root, stringify, stringify_eras. simpl.
  rewrite Harr. simpl. apply map_lookup_filter_None. right.
  intros e _. simpl. rewrite Hidx. discriminate.
Qed.

(** C3. A store created on a path that holds nothing, to which [addEra]
    has added the era ["e1"]: the document is valid and has the era; after
    [save] to the store's path and [load] from it, the era is gone.  The
    [eras] that [load] added to the empty record is an array, where
    [item_categories] and [markers] are objects, and serialisation does not
    write the properties of an array. *)
Theorem era_of_a_new_document_is_lost_by_save_and_load :
  eras_is_array (eras (data (new_Json ∅ "data.json"))) = true
  /\ isValid (as_raw (data era_json)) = true
  /\ getEra "e1" era_json = Some (mkEra "New era" 5000 6000 "#cccccc" true)
  /\ getEra "e1" (load (save (path era_json) era_json ∅) era_json) = None
  /\ eras (data (load (save (path era_json) era_json ∅) era_json))
     <> eras (data era_json).
Proof.
  split; [reflexivity|]. split; [reflexivity|]. split; [reflexivity|].
  assert (H : getEra "e1" (load (save (path era_json) era_json ∅) era_json)
              = None) by (vm_compute; reflexivity).
  split; [exact H|]. intros Heq. unfold getEra in H. rewrite Heq in H.
  vm_compute in H. discriminate H.
Qed.

(** ** A witness of the render list *)


(** * Further properties of the store *)

Lemma forest_ids_app gs1 gs2 :
  forest_ids (gs1 ++ gs2) = forest_ids gs1 ++ forest_ids gs2.
Proof. unfold forest_ids. apply flat_map_app. Qed.

Lemma forest_ids_cons g gs :
  forest_ids (g :: gs)
  = group_id g :: forest_ids (group_childs g) ++ forest_ids gs.
Proof. destruct g. reflexivity. Qed.

Lemma op_in_false_absent id hit op_in g :
  (forall i n c p v childs,
     op_in (mkGroup i n c p v childs) =
     let '(r, childs', k) := group_loop id hit op_in childs in
     (r, mkGroup i n c p v childs', k)) ->
  (op_in g).1.1 = false -> id ∉ forest_ids (group_childs g).
Proof.
  intros Hunfold Hr. apply level_below_zero.
  destruct (op_in_level id hit op_in Hunfold g) as [H1 _].
  rewrite Hr in H1. symmetry in H1. apply bool_decide_eq_false in H1.
  destruct (level_below id g); [reflexivity | exfalso; apply H1; discriminate].
Qed.

(** ** Removing a group *)

Lemma remove_loop_ids id gs :
  Forall (fun g => forall g' k,
            removeGroup_in id g = (true, g', k) ->
            exists pre sub post,
              forest_ids (group_childs g) = pre ++ id :: sub ++ post
              /\ forest_ids (group_childs g') = pre ++ post
              /\ id ∉ pre) gs ->
  forall gs' k,
    group_loop id remove_hit (removeGroup_in id) gs = (true, gs', k) ->
    exists pre sub post,
      forest_ids gs = pre ++ id :: sub ++ post
      /\ forest_ids gs' = pre ++ post
      /\ id ∉ pre.
Proof.
  induction 1 as [|g gs Hg _ IH]; intros gs' k; cbn [group_loop];
    [discriminate|].
  destruct (String.eqb (group_id g) id) eqn:E.
  - intros [= <- <-]. apply String.eqb_eq in E.
    exists [], (forest_ids (group_childs g)), (forest_ids gs).
    rewrite forest_ids_cons, E. repeat split. apply not_elem_of_nil.
  - apply String.eqb_neq in E.
    destruct (removeGroup_in id g) as [[found g1] n] eqn:R. destruct found.
    + intros [= <- <-].
      destruct (Hg g1 n eq_refl) as (pre & sub & post & H1 & H2 & H3).
      pose proof (op_in_keeps_id id remove_hit (removeGroup_in id) g
                    (removeGroup_in_unfold id)) as Hid.
      rewrite R in Hid. simpl in Hid.
      exists (group_id g :: pre), sub, (post ++ forest_ids gs).
      rewrite !forest_ids_cons, H1, H2, Hid. simpl.
      rewrite <- !app_assoc. simpl. rewrite <- !app_assoc.
      repeat split. apply not_elem_of_cons. split; [congruence | exact H3].
    + pose proof (op_in_false id remove_hit (removeGroup_in id) g
                    (removeGroup_in_unfold id)) as Hf.
      pose proof (op_in_false_absent id remove_hit (removeGroup_in id) g
                    (removeGroup_in_unfold id)) as Ha.
      rewrite R in Hf, Ha. simpl in Hf, Ha.
      specialize (Hf eq_refl). specialize (Ha eq_refl).
      injection Hf as -> ->.
      destruct (group_loop id remove_hit (removeGroup_in id) gs)
        as [[r rest'] m] eqn:L.
      intros [= -> <- <-].
      destruct (IH rest' m eq_refl) as (pre & sub & post & H1 & H2 & H3).
      exists (group_id g :: forest_ids (group_childs g) ++ pre), sub, post.
      rewrite !forest_ids_cons, H1, H2. simpl. rewrite <- !app_assoc.
      repeat split.
      apply not_elem_of_cons. split; [congruence|].
      apply not_elem_of_app. split; assumption.
Qed.

Lemma removeGroup_in_ids id g g' k :
  removeGroup_in id g = (true, g', k) ->
  exists pre sub post,
    forest_ids (group_childs g) = pre ++ id :: sub ++ post
    /\ forest_ids (group_childs g') = pre ++ post
    /\ id ∉ pre.
Proof.
  revert g' k. induction g as [i n c p v childs IH] using Group_ind'.
  intros g' k. simpl.
  destruct (group_loop id remove_hit (removeGroup_in id) childs)
    as [[r childs'] k'] eqn:L.
  intros [= -> <- <-]. simpl.
  exact (remove_loop_ids id childs IH childs' k' L).
Qed.

Lemma removeGroup_ids id j :
  (removeGroup id j).1 = true ->
  exists pre sub post,
    forest_ids (groups (data j)) = pre ++ id :: sub ++ post
    /\ forest_ids (groups (data (removeGroup id j).2)) = pre ++ post
    /\ id ∉ pre.
Proof.
  unfold removeGroup.
  destruct (group_loop id remove_hit (removeGroup_in id) (groups (data j)))
    as [[r gs'] k] eqn:L. simpl. intros ->.
  apply (remove_loop_ids id (groups (data j))) with (k := k); [|exact L].
  apply Forall_forall. intros g _ g' k'. apply removeGroup_in_ids.
Qed.

Lemma removeGroup_removes_the_id_aux id j :
  NoDup (forest_ids (groups (data j))) ->
  (removeGroup id j).1 = true ->
  NoDup (forest_ids (groups (data (removeGroup id j).2)))
  /\ (id ∉ forest_ids (groups (data (removeGroup id j).2)))
  /\ (forall x, x ∈ forest_ids (groups (data (removeGroup id j).2)) ->
                x ∈ forest_ids (groups (data j))).
Proof.
  intros Hnd Hok.
  destruct (removeGroup_ids id j Hok) as (pre & sub & post & H1 & H2 & H3).
  rewrite H1 in Hnd. rewrite H2.
  apply NoDup_app in Hnd as (Hpre & Hdisj & Hrest).
  apply NoDup_cons in Hrest as [Hid Hrest].
  apply NoDup_app in Hrest as (Hsub & Hdisj' & Hpost).
  split; [|split].
  - apply NoDup_app. split; [exact Hpre|]. split; [|exact Hpost].
    intros x Hx Hx'. apply (Hdisj x Hx). right.
    apply elem_of_app. right. exact Hx'.
  - apply not_elem_of_app. split; [exact H3|].
    intros Hin. apply Hid. apply elem_of_app. right. exact Hin.
  - intros x Hx. rewrite H1. apply elem_of_app in Hx as [Hx|Hx].
    + apply elem_of_app. left. exact Hx.
    + apply elem_of_app. right. right. apply elem_of_app. right. exact Hx.
Qed.

(** X1. In a forest whose ids are all different, a successful
    [removeGroup] takes the group out for good: the id is no longer in the
    forest, no id is new, and [removeGroup] on the same id again returns
    false. *)
Theorem removeGroup_removes_the_id (id : string) (j : Json) :
  NoDup (forest_ids (groups (data j))) ->
  (removeGroup id j).1 = true ->
  (id ∉ forest_ids (groups (data (removeGroup id j).2)))
  /\ (forall x, x ∈ forest_ids (groups (data (removeGroup id j).2)) ->
                x ∈ forest_ids (groups (data j)))
  /\ (removeGroup id (removeGroup id j).2).1 = false.
Proof.
  intros Hnd Hok.
  destruct (removeGroup_removes_the_id_aux id j Hnd Hok) as (_ & H1 & H2).
  split; [exact H1|]. split; [exact H2|].
  rewrite (removeGroup_fails id (removeGroup id j).2 (or_introl H1)).
  reflexivity.
Qed.

Lemma removeGroup_removes_the_id_witness :
  NoDup (forest_ids (groups (data nested_json)))
  /\ (removeGroup "a" nested_json).1 = true
  /\ "a" ∉ forest_ids (groups (data (removeGroup "a" nested_json).2)).
Proof.
  assert (H1 : NoDup (forest_ids (groups (data nested_json)))).
  { apply (bool_decide_unpack _). vm_compute. exact I. }
  assert (H2 : (removeGroup "a" nested_json).1 = true) by reflexivity.
  split; [exact H1|]. split; [exact H2|].
  exact (proj1 (removeGroup_removes_the_id "a" nested_json H1 H2)).
Defined.

(** ** Ids stay unique *)

Lemma forest_ids_cons_ids g gs :
  forest_ids (g :: gs) = group_ids g ++ forest_ids gs.
Proof. reflexivity. Qed.

Section KeepIds.
Variable id : string.
Variable hit : Group -> list Group.
Variable op_in : Group -> bool * Group * nat.
Hypothesis op_in_unfold : forall i n c p v childs,
  op_in (mkGroup i n c p v childs) =
  let '(r, childs', k) := group_loop id hit op_in childs in
  (r, mkGroup i n c p v childs', k).
(** The action keeps the group in its slot, with its id and its childs. *)
Hypothesis hit_ids : forall g, forest_ids (hit g) = group_ids g.

Lemma keep_loop_ids gs :
  Forall (fun g => group_ids (op_in g).1.2 = group_ids g) gs ->
  forest_ids (group_loop id hit op_in gs).1.2 = forest_ids gs.
Proof.
  induction 1 as [|g gs Hg _ IH]; cbn [group_loop]; [reflexivity|].
  destruct (String.eqb (group_id g) id).
  - cbn [fst snd]. rewrite forest_ids_app, hit_ids. reflexivity.
  - destruct (op_in g) as [[found g1] n]. cbn [fst snd] in Hg.
    destruct found; cbn [fst snd].
    + rewrite !forest_ids_cons_ids, Hg. reflexivity.
    + destruct (group_loop id hit op_in gs) as [[r rest'] m].
      cbn [fst snd] in *.
      rewrite !forest_ids_cons_ids, Hg, IH. reflexivity.
Qed.

Lemma keep_in_ids g : group_ids (op_in g).1.2 = group_ids g.
Proof.
  induction g as [i n c p v childs IH] using Group_ind'.
  rewrite op_in_unfold. pose proof (keep_loop_ids childs IH) as H.
  destruct (group_loop id hit op_in childs) as [[r childs'] k].
  simpl in *. unfold forest_ids in H. rewrite H. reflexivity.
Qed.

Lemma keep_ids gs :
  forest_ids (group_loop id hit op_in gs).1.2 = forest_ids gs.
Proof.
  apply keep_loop_ids. apply Forall_forall. intros g _. apply keep_in_ids.
Qed.
End KeepIds.

Lemma toggleGroupVisibility_ids id j :
  forest_ids (groups (data (toggleGroupVisibility id j).2))
  = forest_ids (groups (data j)).
Proof.
  unfold toggleGroupVisibility.
  pose proof (keep_ids id toggle_hit (toggleGroupVisibility_in id)
                (toggleGroupVisibility_in_unfold id)) as H.
  specialize (H (fun g => ltac:(destruct g; simpl; rewrite app_nil_r;
                                 reflexivity)) (groups (data j))).
  destruct (group_loop _ _ _ _) as [[r gs'] k]. exact H.
Qed.

Lemma renameGroup_ids id name j :
  forest_ids (groups (data (renameGroup id name j).2))
  = forest_ids (groups (data j)).
Proof.
  unfold renameGroup. destruct (truthy name) eqn:T; simpl; [|reflexivity].
  pose proof (keep_ids id (rename_hit name) (renameGroup_in id name)
                (fun i n c p v childs =>
                   renameGroup_in_unfold id name i n c p v childs T)) as H.
  specialize (H (fun g => ltac:(destruct g; simpl; rewrite app_nil_r;
                                 reflexivity)) (groups (data j))).
  destruct (group_loop _ _ _ _) as [[r gs'] k]. exact H.
Qed.

Lemma updateItem_loop_ids new l l' :
  updateItem_loop new l = Some l' -> item_ids l' = item_ids l.
Proof.
  intros H. destruct (updateItem_loop_Some _ _ _ H)
    as (pre & it & post & -> & _ & _ & ->).
  unfold item_ids. rewrite !map_app. reflexivity.
Qed.

Lemma removeItem_loop_Some id l l' :
  removeItem_loop id l = Some l' ->
  exists pre it post,
    l = pre ++ it :: post
    /\ (forall x, x ∈ pre -> item_id x <> id)
    /\ item_id it = id
    /\ l' = pre ++ post.
Proof.
  revert l'. induction l as [|a l IH]; intros l'; simpl; [discriminate|].
  destruct (bool_decide (item_id a = id)) eqn:E.
  - intros [= <-]. apply bool_decide_eq_true in E.
    exists [], a, l. repeat split; auto. intros x Hx. inversion Hx.
  - apply bool_decide_eq_false in E.
    destruct (removeItem_loop id l) as [l1|]; [|discriminate].
    intros [= <-].
    destruct (IH l1 eq_refl) as (pre & it & post & -> & Hpre & Hit & ->).
    exists (a :: pre), it, post. repeat split; auto.
    intros x Hx. apply elem_of_cons in Hx as [->|Hx]; auto.
Qed.

(** X2. The ids stay unique: when the ids of the groups are all different
    and so are the ids of the items, they still are after any mutation
    call, provided the uuid that [addGroup] draws is not an id of the
    forest. *)
Theorem unique_ids_are_kept (c : Call) (j : Json) :
  NoDup (forest_ids (groups (data j))) ->
  NoDup (item_ids (items (data j))) ->
  (forall uuid name, c = CallAddGroup uuid name ->
                     uuid ∉ forest_ids (groups (data j))) ->
  NoDup (forest_ids (groups (data (run c j).2)))
  /\ NoDup (item_ids (items (data (run c j).2))).
Proof.
  intros Hg Hi Hfresh. destruct c; simpl.
  - unfold addGroup. destruct (negb (truthy name)); [auto|]. simpl.
    split; [|exact Hi]. rewrite forest_ids_app. simpl.
    apply NoDup_app. split; [exact Hg|]. split.
    + intros x Hx Hx'. apply list_elem_of_singleton in Hx'. subst x.
      exact (Hfresh uuid name eq_refl Hx).
    + apply NoDup_singleton.
  - destruct (removeGroup id j).1 eqn:R.
    + split; [apply (proj1 (removeGroup_removes_the_id_aux id j Hg R))|].
      unfold removeGroup. destruct (group_loop _ _ _ _) as [[r gs'] k].
      exact Hi.
    + rewrite (removeGroup_fails id j (or_intror R)). auto.
  - rewrite renameGroup_ids. split; [exact Hg|].
    unfold renameGroup. destruct (negb (truthy name)); [exact Hi|].
    destruct (group_loop _ _ _ _) as [[r gs'] k]. exact Hi.
  - rewrite toggleGroupVisibility_ids. split; [exact Hg|].
    unfold toggleGroupVisibility.
    destruct (group_loop _ _ _ _) as [[r gs'] k]. exact Hi.
  - unfold addItem. destruct data_ as [new|]; [|auto].
    destruct (item_id new) as [i|] eqn:Hid; [|auto].
    destruct (has_item (Some i) (items (data j))) eqn:Hhas; [auto|].
    simpl. split; [exact Hg|]. unfold item_ids. rewrite map_app. simpl.
    apply NoDup_app. split; [exact Hi|]. split; [|apply NoDup_singleton].
    intros x Hx Hx'. apply list_elem_of_singleton in Hx'. subst x.
    apply list_elem_of_fmap in Hx as (y & Hy & Hin).
    rewrite has_item_false in Hhas. apply (Hhas y Hin). congruence.
  - unfold updateItem. destruct data_ as [new|]; [|auto].
    destruct (item_id new) as [i|] eqn:Hid; [|auto].
    destruct (updateItem_loop new (items (data j))) as [l'|] eqn:L; [|auto].
    simpl. split; [exact Hg|]. rewrite (updateItem_loop_ids _ _ _ L).
    exact Hi.
  - unfold removeItem. destruct data_ as [old|]; [|auto].
    destruct (item_id old) as [i|] eqn:Hid; [|auto].
    destruct (removeItem_loop (Some i) (items (data j))) as [l'|] eqn:L;
      [|auto].
    simpl. split; [exact Hg|].
    destruct (removeItem_loop_Some _ _ _ L)
      as (pre & it & post & Hl & _ & _ & ->).
    rewrite Hl in Hi. unfold item_ids in *. rewrite map_app in *.
    simpl in Hi. apply NoDup_app in Hi as (H1 & H2 & H3).
    apply NoDup_cons in H3 as [_ H3].
    apply NoDup_app. split; [exact H1|]. split; [|exact H3].
    intros x Hx Hx'. apply (H2 x Hx). right. exact Hx'.
  - unfold addMarker. destruct (markers (data j) !! uuid); auto.
  - unfold removeMarker. destruct (markers (data j) !! uuid); auto.
  - unfold updateMarker. destruct (markers (data j) !! uuid); auto.
  - unfold addEra. destruct (_ !! uuid); auto.
  - unfold removeEra. destruct (_ !! uuid); auto.
  - unfold updateEra. destruct (_ !! uuid); auto.
  - unfold toggleEraVisibility. destruct (_ !! uuid); auto.
Qed.

Lemma unique_ids_are_kept_witness :
  NoDup (forest_ids (groups (data nested_json)))
  /\ NoDup (item_ids (items (data nested_json)))
  /\ NoDup (forest_ids
              (groups (data (run (CallAddGroup "c" "C") nested_json).2))).
Proof.
  assert (H1 : NoDup (forest_ids (groups (data nested_json)))).
  { apply (bool_decide_unpack _). vm_compute. exact I. }
  assert (H2 : NoDup (item_ids (items (data nested_json)))).
  { apply NoDup_nil_2. }
  assert (H3 : forall uuid name,
             CallAddGroup "c" "C" = CallAddGroup uuid name ->
             uuid ∉ forest_ids (groups (data nested_json))).
  { intros uuid name [= <- <-]. apply (bool_decide_unpack _).
    vm_compute. exact I. }
  split; [exact H1|]. split; [exact H2|].
  exact (proj1 (unique_ids_are_kept (CallAddGroup "c" "C") nested_json
                  H1 H2 H3)).
Defined.

(** ** Class names keep their categories *)





(** ** The order of the positions is kept *)

Lemma positions_sorted_head a l :
  positions_sorted (a :: l) = true <->
  (forall x, x ∈ l -> group_position a <= group_position x)
  /\ positions_sorted l = true.
Proof.
  revert a. induction l as [|b l IH]; intros a.
  - simpl. split; [intros _; split; [intros x Hx; inversion Hx | reflexivity]
                  | reflexivity].
  - rewrite positions_sorted_cons, andb_true_iff, Z.leb_le. split.
    + intros [Hab Hb]. split; [|exact Hb].
      apply IH in Hb as [Hb _].
      intros x Hx. apply elem_of_cons in Hx as [->|Hx]; [exact Hab|].
      specialize (Hb x Hx). lia.
    + intros [Ha Hbl]. split; [apply Ha; left | exact Hbl].
Qed.

Lemma positions_sorted_tail a l :
  positions_sorted (a :: l) = true -> positions_sorted l = true.
Proof. intros H. apply positions_sorted_head in H. tauto. Qed.

Lemma positions_sorted_same_head a a' l :
  group_position a' = group_position a ->
  positions_sorted (a :: l) = true -> positions_sorted (a' :: l) = true.
Proof.
  intros Hp H. apply positions_sorted_head in H as [H1 H2].
  apply positions_sorted_head. split; [|exact H2].
  intros x Hx. rewrite Hp. auto.
Qed.

Section KeepSorted.
Variable id : string.
Variable hit : Group -> list Group.
Variable op_in : Group -> bool * Group * nat.
Hypothesis op_in_unfold : forall i n c p v childs,
  op_in (mkGroup i n c p v childs) =
  let '(r, childs', k) := group_loop id hit op_in childs in
  (r, mkGroup i n c p v childs', k).
(** The action empties the slot, or leaves in it a group of the same
    position that is sorted below when the group was. *)
Hypothesis hit_slot : forall g,
  hit g = [] \/
  exists g', hit g = [g'] /\ group_position g' = group_position g
             /\ (group_sorted g = true -> group_sorted g' = true).

Lemma op_in_position g : group_position (op_in g).1.2 = group_position g.
Proof.
  destruct g as [i n c p v childs]. rewrite op_in_unfold.
  destruct (group_loop id hit op_in childs) as [[r childs'] k]. reflexivity.
Qed.

Lemma keep_loop_sorted gs :
  Forall (fun g => group_sorted g = true ->
                   group_sorted (op_in g).1.2 = true) gs ->
  forest_sorted gs = true ->
  forest_sorted (group_loop id hit op_in gs).1.2 = true
  /\ (forall x, x ∈ (group_loop id hit op_in gs).1.2 ->
        exists y, y ∈ gs /\ group_position x = group_position y).
Proof.
  unfold forest_sorted.
  induction 1 as [|g gs Hg _ IH]; cbn [group_loop]; intros Hs.
  { split; [reflexivity | intros x Hx; inversion Hx]. }
  apply andb_true_iff in Hs as [Hp Hall].
  cbn [forallb] in Hall. apply andb_true_iff in Hall as [Hgs Hall].
  pose proof (positions_sorted_tail _ _ Hp) as Hp'.
  destruct (String.eqb (group_id g) id).
  - cbn [fst snd]. destruct (hit_slot g) as [->|(g' & -> & Hpos & Hsort)].
    + simpl. rewrite Hp', Hall. split; [reflexivity|].
      intros x Hx. exists x. split; [right; exact Hx | reflexivity].
    + cbn [app forallb].
      rewrite (positions_sorted_same_head g g' gs Hpos Hp), (Hsort Hgs), Hall.
      split; [reflexivity|]. intros x Hx.
      apply elem_of_cons in Hx as [->|Hx].
      * exists g. split; [left | exact Hpos].
      * exists x. split; [right; exact Hx | reflexivity].
  - pose proof (op_in_position g) as Hpos. specialize (Hg Hgs).
    destruct (op_in g) as [[found g1] n]. cbn [fst snd] in Hpos, Hg.
    destruct found; cbn [fst snd].
    + cbn [forallb].
      rewrite (positions_sorted_same_head g g1 gs Hpos Hp), Hg, Hall.
      split; [reflexivity|]. intros x Hx.
      apply elem_of_cons in Hx as [->|Hx].
      * exists g. split; [left | exact Hpos].
      * exists x. split; [right; exact Hx | reflexivity].
    + assert (Hrest : positions_sorted gs && forallb group_sorted gs = true)
        by (rewrite Hp', Hall; reflexivity).
      destruct (IH Hrest) as [IH1 IH2].
      destruct (group_loop id hit op_in gs) as [[r rest'] m].
      cbn [fst snd] in *. apply andb_true_iff in IH1 as [IH1 IH1'].
      cbn [forallb]. rewrite Hg, IH1'. rewrite andb_true_r. split.
      * apply positions_sorted_head. split; [|exact IH1].
        intros x Hx. destruct (IH2 x Hx) as (y & Hy & ->). rewrite Hpos.
        apply positions_sorted_head in Hp as [Hp _]. apply Hp. exact Hy.
      * intros x Hx. apply elem_of_cons in Hx as [->|Hx].
        -- exists g. split; [left | exact Hpos].
        -- destruct (IH2 x Hx) as (y & Hy & Hxy).
           exists y. split; [right; exact Hy | exact Hxy].
Qed.

Lemma keep_in_sorted g :
  group_sorted g = true -> group_sorted (op_in g).1.2 = true.
Proof.
  induction g as [i n c p v childs IH] using Group_ind'.
  rewrite op_in_unfold. intros Hs.
  pose proof (keep_loop_sorted childs IH Hs) as [H _].
  destruct (group_loop id hit op_in childs) as [[r childs'] k]. exact H.
Qed.

Lemma keep_sorted gs :
  forest_sorted gs = true ->
  forest_sorted (group_loop id hit op_in gs).1.2 = true.
Proof.
  intros Hs. apply keep_loop_sorted; [|exact Hs].
  apply Forall_forall. intros g _. apply keep_in_sorted.
Qed.
End KeepSorted.

Lemma remove_hit_slot g :
  remove_hit g = [] \/
  exists g', remove_hit g = [g'] /\ group_position g' = group_position g
             /\ (group_sorted g = true -> group_sorted g' = true).
Proof. left. reflexivity. Qed.

Lemma rename_hit_slot name g :
  rename_hit name g = [] \/
  exists g', rename_hit name g = [g']
             /\ group_position g' = group_position g
             /\ (group_sorted g = true -> group_sorted g' = true).
Proof. right. eexists. split; [reflexivity|]. destruct g. auto. Qed.

Lemma toggle_hit_slot g :
  toggle_hit g = [] \/
  exists g', toggle_hit g = [g'] /\ group_position g' = group_position g
             /\ (group_sorted g = true -> group_sorted g' = true).
Proof. right. eexists. split; [reflexivity|]. destruct g. auto. Qed.

(** X4. The order [load] establishes is kept: when the positions ascend
    at every level of the forest, they still do after any mutation call
    other than [addGroup]. *)
Theorem sorted_forest_stays_sorted (c : Call) (j : Json) :
  forest_sorted (groups (data j)) = true ->
  (forall uuid name, c <> CallAddGroup uuid name) ->
  forest_sorted (groups (data (run c j).2)) = true.
Proof.
  intros Hs Hc. destruct c; simpl.
  - destruct (Hc uuid name eq_refl).
  - unfold removeGroup.
    pose proof (keep_sorted id remove_hit (removeGroup_in id)
                  (removeGroup_in_unfold id) remove_hit_slot _ Hs) as H.
    destruct (group_loop _ _ _ _) as [[r gs'] k]. exact H.
  - unfold renameGroup. destruct (truthy name) eqn:T; simpl; [|exact Hs].
    pose proof (keep_sorted id (rename_hit name) (renameGroup_in id name)
                  (fun i n c p v childs =>
                     renameGroup_in_unfold id name i n c p v childs T)
                  (rename_hit_slot name) _ Hs) as H.
    destruct (group_loop _ _ _ _) as [[r gs'] k]. exact H.
  - unfold toggleGroupVisibility.
    pose proof (keep_sorted id toggle_hit (toggleGroupVisibility_in id)
                  (toggleGroupVisibility_in_unfold id) toggle_hit_slot _ Hs)
      as H.
    destruct (group_loop _ _ _ _) as [[r gs'] k]. exact H.
  - unfold addItem. destruct data_ as [new|]; [|exact Hs].
    destruct (item_id new); [|exact Hs].
    destruct (has_item _ _); exact Hs.
  - unfold updateItem. destruct data_ as [new|]; [|exact Hs].
    destruct (item_id new); [|exact Hs].
    destruct (updateItem_loop _ _); exact Hs.
  - unfold removeItem. destruct data_ as [old|]; [|exact Hs].
    destruct (item_id old); [|exact Hs].
    destruct (removeItem_loop _ _); exact Hs.
  - unfold addMarker. destruct (markers (data j) !! uuid); exact Hs.
  - unfold removeMarker. destruct (markers (data j) !! uuid); exact Hs.
  - unfold updateMarker. destruct (markers (data j) !! uuid); exact Hs.
  - unfold addEra. destruct (_ !! uuid); exact Hs.
  - unfold removeEra. destruct (_ !! uuid); exact Hs.
  - unfold updateEra. destruct (_ !! uuid); exact Hs.
  - unfold toggleEraVisibility. destruct (_ !! uuid); exact Hs.
Qed.

Lemma sorted_forest_stays_sorted_witness :
  forest_sorted (groups (data nested_json)) = true
  /\ forest_sorted
       (groups (data (run (CallRemoveGroup "b") nested_json).2)) = true.
Proof.
  assert (H1 : forest_sorted (groups (data nested_json)) = true)
    by reflexivity.
  split; [exact H1|].
  apply (sorted_forest_stays_sorted (CallRemoveGroup "b") nested_json H1).
  intros uuid name H. discriminate H.
Defined.

(** X5. [addGroup] numbers the new group by the count of the root groups,
    not by their positions: on a sorted forest the result is sorted exactly
    when no root group has a position above the count plus one. *)
Theorem addGroup_keeps_order_iff (uuid name : string) (j : Json) :
  name <> "" ->
  forest_sorted (groups (data j)) = true ->
  (forest_sorted (groups (data (addGroup uuid name j).2)) = true <->
   forall g, g ∈ groups (data j) ->
             group_position g <= Z.of_nat (length (groups (data j))) + 1).
Proof.
  intros Hname Hs. apply truthy_true in Hname.
  unfold addGroup. rewrite Hname. simpl.
  set (gs := groups (data j)) in *.
  set (new := mkGroup uuid name "" (Z.of_nat (length gs) + 1) true []).
  unfold forest_sorted in *. apply andb_true_iff in Hs as [Hp Hall].
  rewrite forallb_app, Hall. simpl. rewrite andb_true_r.
  change (Z.of_nat (length gs) + 1) with (group_position new).
  clearbody new. clear Hall. induction gs as [|a l IH].
  - simpl. split; [intros _ g Hg; inversion Hg | reflexivity].
  - pose proof (positions_sorted_head a l) as Ha.
    apply Ha in Hp as [Hmin Hp]. specialize (IH Hp).
    change ((a :: l) ++ [new]) with (a :: (l ++ [new])).
    rewrite positions_sorted_head. split.
    + intros [H1 H2] g Hg. apply elem_of_cons in Hg as [->|Hg].
      * apply H1. apply elem_of_app. right. left.
      * apply IH; assumption.
    + intros H. split.
      * intros x Hx. apply elem_of_app in Hx as [Hx|Hx]; [auto|].
        apply list_elem_of_singleton in Hx. subst x. apply H. left.
      * apply IH. intros g Hg. apply H. right. exact Hg.
Qed.

Lemma addGroup_keeps_order_iff_witness :
  "C" <> ""
  /\ forest_sorted (groups (data nested_json)) = true
  /\ forest_sorted (groups (data (addGroup "c" "C" nested_json).2)) = true.
Proof.
  assert (H1 : "C" <> "") by discriminate.
  assert (H2 : forest_sorted (groups (data nested_json)) = true)
    by reflexivity.
  split; [exact H1|]. split; [exact H2|].
  apply (proj2 (addGroup_keeps_order_iff "c" "C" nested_json H1 H2)).
  intros g Hg. apply list_elem_of_singleton in Hg. subst g. simpl. lia.
Defined.

(** ** Renaming *)

Lemma rename_loop_again id n1 n2 gs :
  truthy n1 = true -> truthy n2 = true ->
  Forall (fun g => renameGroup_in id n2 (renameGroup_in id n1 g).1.2
                   = renameGroup_in id n2 g) gs ->
  group_loop id (rename_hit n2) (renameGroup_in id n2)
    (group_loop id (rename_hit n1) (renameGroup_in id n1) gs).1.2
  = group_loop id (rename_hit n2) (renameGroup_in id n2) gs.
Proof.
  intros T1 T2.
  induction 1 as [|g gs Hg _ IH]; cbn [group_loop]; [reflexivity|].
  destruct (String.eqb (group_id g) id) eqn:E.
  - destruct g as [i n c p v childs]. simpl in *. rewrite E. reflexivity.
  - pose proof (op_in_keeps_id id (rename_hit n1) (renameGroup_in id n1) g
                  (fun i n c p v childs =>
                     renameGroup_in_unfold id n1 i n c p v childs T1)) as Hid.
    pose proof (op_in_false id (rename_hit n1) (renameGroup_in id n1) g
                  (fun i n c p v childs =>
                     renameGroup_in_unfold id n1 i n c p v childs T1)) as Hf.
    pose proof (op_in_false_absent id (rename_hit n1) (renameGroup_in id n1)
                  g (fun i n c p v childs =>
                       renameGroup_in_unfold id n1 i n c p v childs T1))
      as Ha.
    destruct (renameGroup_in id n1 g) as [[f1 g1] k1].
    cbn [fst snd] in *. destruct f1; cbn [fst snd group_loop].
    + rewrite Hid, E, Hg. reflexivity.
    + specialize (Hf eq_refl). specialize (Ha eq_refl).
      injection Hf as -> ->.
      destruct (group_loop id (rename_hit n1) (renameGroup_in id n1) gs)
        as [[r rest'] m]. cbn [fst snd group_loop] in *.
      rewrite E.
      rewrite (op_in_absent id (rename_hit n2) (renameGroup_in id n2)
                 (fun i n c p v childs =>
                    renameGroup_in_unfold id n2 i n c p v childs T2) g Ha).
      rewrite IH. reflexivity.
Qed.

Lemma renameGroup_in_again id n1 n2 g :
  truthy n1 = true -> truthy n2 = true ->
  renameGroup_in id n2 (renameGroup_in id n1 g).1.2 = renameGroup_in id n2 g.
Proof.
  intros T1 T2. induction g as [i n c p v childs IH] using Group_ind'.
  rewrite (renameGroup_in_unfold id n1 i n c p v childs T1).
  rewrite (renameGroup_in_unfold id n2 i n c p v childs T2).
  pose proof (rename_loop_again id n1 n2 childs T1 T2 IH) as H.
  destruct (group_loop id (rename_hit n1) (renameGroup_in id n1) childs)
    as [[r childs'] k]. cbn [fst snd] in *.
  rewrite (renameGroup_in_unfold id n2 i n c p v childs' T2), H.
  reflexivity.
Qed.

(** X6. The last name wins: renaming a group and renaming it again gives
    the document that the second renaming alone gives, whether the forest
    has the id or not. *)
Theorem renameGroup_last_name_wins (id n1 n2 : string) (j : Json) :
  n1 <> "" -> n2 <> "" ->
  data (renameGroup id n2 (renameGroup id n1 j).2).2
  = data (renameGroup id n2 j).2
  /\ (renameGroup id n2 (renameGroup id n1 j).2).1 = (renameGroup id n2 j).1.
Proof.
  intros H1 H2. apply truthy_true in H1, H2.
  unfold renameGroup. rewrite H1, H2. simpl.
  pose proof (rename_loop_again id n1 n2 (groups (data j)) H1 H2) as H.
  assert (HF : Forall (fun g =>
                 renameGroup_in id n2 (renameGroup_in id n1 g).1.2
                 = renameGroup_in id n2 g) (groups (data j))).
  { apply Forall_forall. intros g _. apply renameGroup_in_again; assumption. }
  specialize (H HF).
  destruct (group_loop id (rename_hit n1) (renameGroup_in id n1)
                       (groups (data j))) as [[r gs1] k1].
  cbn [fst snd] in *. simpl. rewrite H.
  destruct (group_loop id (rename_hit n2) (renameGroup_in id n2)
                       (groups (data j))) as [[r2 gs2] k2].
  split; reflexivity.
Qed.

Lemma renameGroup_last_name_wins_witness :
  "C" <> "" /\ "D" <> ""
  /\ data (renameGroup "b" "D" (renameGroup "b" "C" nested_json).2).2
     = data (renameGroup "b" "D" nested_json).2.
Proof.
  assert (H1 : "C" <> "") by discriminate.
  assert (H2 : "D" <> "") by discriminate.
  split; [exact H1|]. split; [exact H2|].
  exact (proj1 (renameGroup_last_name_wins "b" "C" "D" nested_json H1 H2)).
Defined.

Lemma rename_loop_names id name gs :
  truthy name = true ->
  Forall (fun g => forall g' k,
            renameGroup_in id name g = (true, g', k) ->
            exists pre old post,
              forest_names (group_childs g) = pre ++ (id, old) :: post
              /\ forest_names (group_childs g') = pre ++ (id, name) :: post
              /\ (forall q, q ∈ pre -> q.1 <> id)
              /\ group_name g' = group_name g) gs ->
  forall gs' k,
    group_loop id (rename_hit name) (renameGroup_in id name) gs
    = (true, gs', k) ->
    exists pre old post,
      forest_names gs = pre ++ (id, old) :: post
      /\ forest_names gs' = pre ++ (id, name) :: post
      /\ (forall q, q ∈ pre -> q.1 <> id).
Proof.
  intros T.
  induction 1 as [|g gs Hg _ IH]; intros gs' k; cbn [group_loop];
    [discriminate|].
  assert (Hcons : forall x l, forest_names (x :: l)
            = (group_id x, group_name x) :: forest_names (group_childs x)
              ++ forest_names l) by (intros [] l; reflexivity).
  destruct (String.eqb (group_id g) id) eqn:E.
  - intros [= <- <-]. apply String.eqb_eq in E.
    exists [], (group_name g),
      (forest_names (group_childs g) ++ forest_names gs).
    rewrite Hcons, E. split; [reflexivity|]. split.
    + destruct g. simpl in *. subst. reflexivity.
    + intros q Hq. inversion Hq.
  - apply String.eqb_neq in E.
    pose proof (op_in_keeps_id id (rename_hit name) (renameGroup_in id name)
                  g (fun i n c p v childs =>
                       renameGroup_in_unfold id name i n c p v childs T))
      as Hid.
    pose proof (op_in_false id (rename_hit name) (renameGroup_in id name) g
                  (fun i n c p v childs =>
                     renameGroup_in_unfold id name i n c p v childs T))
      as Hf.
    destruct (renameGroup_in id name g) as [[found g1] n] eqn:R.
    cbn [fst snd] in *. destruct found.
    + intros [= <- <-].
      destruct (Hg g1 n eq_refl) as (pre & old & post & H1 & H2 & H3 & H4).
      exists ((group_id g, group_name g) :: pre), old,
        (post ++ forest_names gs).
      rewrite !Hcons, H1, H2, Hid, H4. simpl. rewrite <- !app_assoc.
      split; [reflexivity|]. split; [reflexivity|].
      intros q Hq. apply elem_of_cons in Hq as [->|Hq]; [exact E | auto].
    + specialize (Hf eq_refl). injection Hf as -> ->.
      pose proof (op_in_false_absent id (rename_hit name)
                    (renameGroup_in id name) g
                    (fun i n c p v childs =>
                       renameGroup_in_unfold id name i n c p v childs T))
        as Ha.
      rewrite R in Ha. specialize (Ha eq_refl).
      destruct (group_loop id (rename_hit name) (renameGroup_in id name) gs)
        as [[r rest'] m] eqn:L.
      intros [= -> <- <-].
      destruct (IH rest' m eq_refl) as (pre & old & post & H1 & H2 & H3).
      exists ((group_id g, group_name g)
                :: forest_names (group_childs g) ++ pre), old, post.
      rewrite !Hcons, H1, H2. simpl. rewrite <- !app_assoc.
      split; [reflexivity|]. split; [reflexivity|].
      intros q Hq. apply elem_of_cons in Hq as [->|Hq]; [exact E|].
      apply elem_of_app in Hq as [Hq|Hq]; [|auto].
      intros Hq'. apply Ha. rewrite <- Hq'.
      clear -Hq. revert Hq. generalize (group_childs g). intros l.
      unfold forest_names, forest_ids.
      induction l as [|x l IHl] using rev_ind; [intros H; inversion H|].
      rewrite !flat_map_app. simpl. rewrite !app_nil_r.
      intros H. apply elem_of_app in H as [H|H].
      * apply elem_of_app. left. auto.
      * apply elem_of_app. right. clear IHl. revert q H.
        induction x as [i n c p v childs IHx] using Group_ind'. simpl.
        intros q H. apply elem_of_cons in H as [->|H]; [left|]. right.
        induction IHx as [|y ys Hy _ IHys]; simpl in *; [inversion H|].
        apply elem_of_app in H as [H|H]; apply elem_of_app; auto.
Qed.

Lemma renameGroup_in_names id name g g' k :
  truthy name = true ->
  renameGroup_in id name g = (true, g', k) ->
  exists pre old post,
    forest_names (group_childs g) = pre ++ (id, old) :: post
    /\ forest_names (group_childs g') = pre ++ (id, name) :: post
    /\ (forall q, q ∈ pre -> q.1 <> id)
    /\ group_name g' = group_name g.
Proof.
  intros T. revert g' k.
  induction g as [i n c p v childs IH] using Group_ind'. intros g' k.
  rewrite (renameGroup_in_unfold id name i n c p v childs T).
  destruct (group_loop id (rename_hit name) (renameGroup_in id name) childs)
    as [[r childs'] k'] eqn:L.
  intros [= -> <- <-]. simpl.
  destruct (rename_loop_names id name childs T IH childs' k' L)
    as (pre & old & post & H1 & H2 & H3).
  exists pre, old, post. auto.
Qed.

Lemma rename_loop_forget id name gs :
  truthy name = true ->
  Forall (fun g => forget_name (renameGroup_in id name g).1.2
                   = forget_name g) gs ->
  map forget_name
      (group_loop id (rename_hit name) (renameGroup_in id name) gs).1.2
  = map forget_name gs.
Proof.
  intros T. induction 1 as [|g gs Hg _ IH]; cbn [group_loop];
    [reflexivity|].
  destruct (String.eqb (group_id g) id).
  - destruct g; reflexivity.
  - destruct (renameGroup_in id name g) as [[found g1] n].
    cbn [fst snd] in Hg. destruct found; cbn [fst snd map].
    + rewrite Hg. reflexivity.
    + destruct (group_loop id (rename_hit name) (renameGroup_in id name) gs)
        as [[r rest'] m]. cbn [fst snd map] in *. rewrite Hg, IH.
      reflexivity.
Qed.

Lemma renameGroup_in_forget id name g :
  truthy name = true ->
  forget_name (renameGroup_in id name g).1.2 = forget_name g.
Proof.
  intros T. induction g as [i n c p v childs IH] using Group_ind'.
  rewrite (renameGroup_in_unfold id name i n c p v childs T).
  pose proof (rename_loop_forget id name childs T IH) as H.
  destruct (group_loop id (rename_hit name) (renameGroup_in id name) childs)
    as [[r childs'] k]. cbn [fst snd] in *. simpl. rewrite H. reflexivity.
Qed.

(** X7. A successful [renameGroup] renames the first group with the id
    that the search meets and nothing else: in the list of the (id, name)
    pairs of the forest that one pair gets the new name, every other field
    of every group is as before, and so is the rest of the document. *)
Theorem renameGroup_renames_the_first_match (id name : string) (j : Json) :
  (renameGroup id name j).1 = true ->
  exists pre old post,
    forest_names (groups (data j)) = pre ++ (id, old) :: post
    /\ (forall q, q ∈ pre -> q.1 <> id)
    /\ forest_names (groups (data (renameGroup id name j).2))
       = pre ++ (id, name) :: post
    /\ map forget_name (groups (data (renameGroup id name j).2))
       = map forget_name (groups (data j))
    /\ set_groups (groups (data j)) (data (renameGroup id name j).2)
       = data j.
Proof.
  unfold renameGroup. destruct (truthy name) eqn:T; simpl; [|discriminate].
  pose proof (rename_loop_names id name (groups (data j)) T) as Hn.
  pose proof (rename_loop_forget id name (groups (data j)) T) as Hf.
  destruct (group_loop id (rename_hit name) (renameGroup_in id name)
                       (groups (data j))) as [[r gs'] k] eqn:L.
  simpl. intros ->.
  destruct (Hn ltac:(apply Forall_forall; intros g _ g' k';
                     apply renameGroup_in_names; exact T) gs' k eq_refl)
    as (pre & old & post & H1 & H2 & H3).
  exists pre, old, post. split; [exact H1|]. split; [exact H3|].
  split; [exact H2|]. split.
  - apply Hf. apply Forall_forall. intros g _.
    apply renameGroup_in_forget. exact T.
  - destruct j as [p [cf gs its cats es ms] n]. reflexivity.
Qed.

Lemma renameGroup_renames_the_first_match_witness :
  (renameGroup "b" "C" nested_json).1 = true
  /\ forest_names (groups (data (renameGroup "b" "C" nested_json).2))
     = [("a", "A"); ("b", "C")].
Proof.
  assert (H : (renameGroup "b" "C" nested_json).1 = true) by reflexivity.
  split; [exact H|].
  destruct (renameGroup_renames_the_first_match "b" "C" nested_json H)
    as (pre & old & post & _ & _ & _ & _ & _).
  reflexivity.
Defined.

(** ** Items: adding and removing *)

Lemma removeItem_loop_last id l x :
  has_item id l = false -> item_id x = id ->
  removeItem_loop id (l ++ [x]) = Some l.
Proof.
  intros Hl Hx. induction l as [|a l IH]; simpl.
  - rewrite bool_decide_eq_true_2 by exact Hx. reflexivity.
  - unfold has_item in Hl. simpl in Hl.
    apply orb_false_iff in Hl as [Ha Hl]. rewrite Ha.
    rewrite (IH Hl). reflexivity.
Qed.

(** X8. [removeItem] undoes [addItem]: after a successful [addItem], a
    [removeItem] with the same payload returns true and the items are those
    of before; the category that [addItem] may have created stays. *)
Theorem removeItem_undoes_addItem (new : Item) (j : Json) :
  (addItem (Some new) j).1 = true ->
  (removeItem (Some new) (addItem (Some new) j).2).1 = true
  /\ items (data (removeItem (Some new) (addItem (Some new) j).2).2)
     = items (data j)
  /\ item_categories
       (data (removeItem (Some new) (addItem (Some new) j).2).2)
     = ensure_category (item_className new) (item_categories (data j)).
Proof.
  unfold addItem. destruct (item_id new) as [i|] eqn:Hid; [|discriminate].
  destruct (has_item (Some i) (items (data j))) eqn:Hhas; [discriminate|].
  intros _. unfold removeItem. rewrite Hid. simpl.
  rewrite (removeItem_loop_last (Some i) (items (data j)) new Hhas Hid).
  repeat split.
Qed.

Lemma removeItem_undoes_addItem_witness :
  (addItem (Some point_i1) (new_Json ∅ "data.json")).1 = true
  /\ items (data (removeItem (Some point_i1) point_json).2) = [].
Proof.
  assert (H : (addItem (Some point_i1) (new_Json ∅ "data.json")).1 = true)
    by reflexivity.
  split; [exact H|].
  exact (proj1 (proj2 (removeItem_undoes_addItem point_i1
                         (new_Json ∅ "data.json") H))).
Defined.

(** X9. A successful [removeItem] takes out one item, the first with the
    id, and keeps the others in their order; when the ids of the items are
    all different no item with the id is left and a second [removeItem]
    returns false. *)
Theorem removeItem_removes_one (old : Item) (j : Json) :
  (removeItem (Some old) j).1 = true ->
  exists pre it post,
    items (data j) = pre ++ it :: post
    /\ item_id it = item_id old
    /\ (forall x, x ∈ pre -> item_id x <> item_id old)
    /\ items (data (removeItem (Some old) j).2) = pre ++ post
    /\ (NoDup (item_ids (items (data j))) ->
        (forall x, x ∈ pre ++ post -> item_id x <> item_id old)
        /\ (removeItem (Some old) (removeItem (Some old) j).2).1 = false).
Proof.
  intros Hok.
  assert (Hrun : exists i l',
            item_id old = Some i
            /\ removeItem_loop (Some i) (items (data j)) = Some l'
            /\ items (data (removeItem (Some old) j).2) = l').
  { unfold removeItem in *.
    destruct (item_id old) as [i|] eqn:Hid; [|discriminate].
    destruct (removeItem_loop (Some i) (items (data j))) as [l'|] eqn:L;
      [|discriminate]. exists i, l'.
    split; [reflexivity|]. split; [exact L | reflexivity]. }
  destruct Hrun as (i & l' & Hid & L & Hitems).
  destruct (removeItem_loop_Some _ _ _ L)
    as (pre & it & post & Hl & Hpre & Hit & ->).
  exists pre, it, post. rewrite Hid.
  split; [exact Hl|]. split; [exact Hit|]. split; [exact Hpre|].
  split; [exact Hitems|]. intros Hnd.
  assert (Hgone : forall x, x ∈ pre ++ post -> item_id x <> Some i).
  { intros x Hx. apply elem_of_app in Hx as [Hx|Hx]; [auto|].
    rewrite Hl in Hnd. unfold item_ids in Hnd. rewrite map_app in Hnd.
    simpl in Hnd. apply NoDup_app in Hnd as (_ & _ & Hnd).
    apply NoDup_cons in Hnd as [Hnd _]. intros Hx'. apply Hnd.
    apply list_elem_of_fmap. exists x. split; [congruence | exact Hx]. }
  split; [exact Hgone|].
  assert (Hfail : item_absent (Some old)
            (items (data (removeItem (Some old) j).2))).
  { right. rewrite Hitems, Hid. exact Hgone. }
  rewrite (removeItem_fails (Some old) _ (or_introl Hfail)). reflexivity.
Qed.

Lemma removeItem_removes_one_witness :
  (removeItem (Some point_i1) point_json).1 = true
  /\ items (data (removeItem (Some point_i1) point_json).2) = [].
Proof.
  assert (H : (removeItem (Some point_i1) point_json).1 = true)
    by reflexivity.
  split; [exact H|].
  destruct (removeItem_removes_one point_i1 point_json H)
    as (pre & it & post & _). reflexivity.
Defined.

(** ** Markers and eras *)

Lemma doc_same d :
  mkDoc (configuration d) (groups d) (items d) (item_categories d) (eras d)
        (markers d) = d.
Proof. destruct d; reflexivity. Qed.

Lemma eras_same e : mkEras (eras_is_array e) (eras_entries e) = e.
Proof. destruct e; reflexivity. Qed.



(** X11. An update with nothing to apply succeeds and changes nothing:
    [updateMarker] with a null or empty name and a null date, and
    [updateEra] with null or empty text and color and null dates, return
    true on a uuid that is there and leave the store as it was; an empty
    name is ignored, not refused. *)
Theorem empty_update_succeeds_unchanged
    (uuid : string) (name text color : option string) (j : Json) :
  truthy_arg name = false ->
  truthy_arg text = false ->
  truthy_arg color = false ->
  (is_Some (markers (data j) !! uuid) ->
   updateMarker uuid name None j = (true, j))
  /\ (is_Some (eras_entries (eras (data j)) !! uuid) ->
      updateEra uuid text None None color j = (true, j)).
Proof.
  intros Hn Ht Hc. split.
  - intros [m Hm]. unfold updateMarker. rewrite Hm, Hn.
    rewrite (insert_id _ _ _ Hm).
    unfold set_data, set_markers. rewrite doc_same, json_same. reflexivity.
  - intros [e He]. unfold updateEra. rewrite He, Ht, Hc. simpl.
    assert (Hsame : mkEra (era_text e) (era_start e) (era_end e)
                          (era_color e) (era_visible e) = e)
      by (destruct e; reflexivity).
    rewrite Hsame, (insert_id _ _ _ He).
    unfold set_data, set_eras, set_entries.
    rewrite eras_same, doc_same, json_same. reflexivity.
Qed.

Lemma empty_update_succeeds_unchanged_witness :
  truthy_arg (Some "") = false
  /\ updateEra "e1" (Some "") None None None era_json = (true, era_json).
Proof.
  split; [reflexivity|].
  apply (proj2 (empty_update_succeeds_unchanged "e1" None (Some "") None
                  era_json eq_refl eq_refl eq_refl)).
  exists (mkEra "New era" 5000 6000 "#cccccc" true). reflexivity.
Defined.

(** X12. [toggleEraVisibility] called twice on a uuid that is there
    returns true both times and gives the store back as it was. *)
Theorem toggleEraVisibility_twice_restores (uuid : string) (j : Json) :
  is_Some (eras_entries (eras (data j)) !! uuid) ->
  (toggleEraVisibility uuid j).1 = true
  /\ toggleEraVisibility uuid (toggleEraVisibility uuid j).2 = (true, j).
Proof.
  intros [e He]. unfold toggleEraVisibility. rewrite He. simpl.
  rewrite lookup_insert_eq. simpl. rewrite negb_involutive.
  rewrite insert_insert_eq.
  assert (Hsame : mkEra (era_text e) (era_start e) (era_end e)
                        (era_color e) (era_visible e) = e)
    by (destruct e; reflexivity).
  rewrite Hsame, (insert_id _ _ _ He).
  unfold set_data, set_eras, set_entries. simpl.
  rewrite eras_same, doc_same, json_same. split; reflexivity.
Qed.

Lemma toggleEraVisibility_twice_restores_witness :
  is_Some (eras_entries (eras (data era_json)) !! "e1")
  /\ toggleEraVisibility "e1" (toggleEraVisibility "e1" era_json).2
     = (true, era_json).
Proof.
  assert (H : is_Some (eras_entries (eras (data era_json)) !! "e1")).
  { exists (mkEra "New era" 5000 6000 "#cccccc" true). reflexivity. }
  split; [exact H|].
  exact (proj2 (toggleEraVisibility_twice_restores "e1" era_json H)).
Defined.

(** ** The array that holds the eras *)

Lemma run_keeps_shape c j :
  eras_is_array (eras (data (run c j).2)) = eras_is_array (eras (data j))
  /\ path (run c j).2 = path j.
Proof.
  destruct c; simpl.
  - unfold addGroup. destruct (negb (truthy name)); split; reflexivity.
  - unfold removeGroup. destruct (group_loop _ _ _ _) as [[r gs'] k].
    split; reflexivity.
  - unfold renameGroup. destruct (negb (truthy name)); [split; reflexivity|].
    destruct (group_loop _ _ _ _) as [[r gs'] k]. split; reflexivity.
  - unfold toggleGroupVisibility.
    destruct (group_loop _ _ _ _) as [[r gs'] k]. split; reflexivity.
  - unfold addItem. destruct data_ as [new|]; [|split; reflexivity].
    destruct (item_id new); [|split; reflexivity].
    destruct (has_item _ _); split; reflexivity.
  - unfold updateItem. destruct data_ as [new|]; [|split; reflexivity].
    destruct (item_id new); [|split; reflexivity].
    destruct (updateItem_loop _ _); split; reflexivity.
  - unfold removeItem. destruct data_ as [old|]; [|split; reflexivity].
    destruct (item_id old); [|split; reflexivity].
    destruct (removeItem_loop _ _); split; reflexivity.
  - unfold addMarker. destruct (markers (data j) !! uuid); split; reflexivity.
  - unfold removeMarker. destruct (markers (data j) !! uuid);
      split; reflexivity.
  - unfold updateMarker. destruct (markers (data j) !! uuid);
      split; reflexivity.
  - unfold addEra. destruct (_ !! uuid); split; reflexivity.
  - unfold removeEra. destruct (_ !! uuid); split; reflexivity.
  - unfold updateEra. destruct (_ !! uuid); split; reflexivity.
  - unfold toggleEraVisibility. destruct (_ !! uuid); split; reflexivity.
Qed.

Lemma run_all_keeps_shape cs j :
  eras_is_array (eras (data (run_all cs j))) = eras_is_array (eras (data j))
  /\ path (run_all cs j) = path j.
Proof.
  revert j. induction cs as [|c cs IH]; intros j; simpl; [auto|].
  destruct (IH (run c j).2) as [H1 H2].
  destruct (run_keeps_shape c j) as [H3 H4]. split; congruence.
Qed.

(** X13. No mutation call changes what holds the eras, so a store whose
    [eras] is an array, as [load] makes it for a record without [eras],
    never saves an era: after any sequence of calls, [save] and [load] give
    a document without any era whose uuid is not an array index. *)
Theorem array_held_eras_are_never_saved
    (cs : list Call) (fs : gmap string Stored) (uuid : string) (j : Json) :
  eras_is_array (eras (data j)) = true ->
  is_array_index uuid = false ->
  getEra uuid (load (save (path j) (run_all cs j) fs) (run_all cs j)) = None.
Proof.
  intros Harr Hidx. destruct (run_all_keeps_shape cs j) as [H1 H2].
  rewrite <- H2. apply array_property_is_not_saved; [|exact Hidx].
  rewrite H1. exact Harr.
Qed.

Lemma array_held_eras_are_never_saved_witness :
  eras_is_array (eras (data (new_Json ∅ "data.json"))) = true
  /\ is_array_index "e1" = false
  /\ getEra "e1"
       (load (save "data.json"
                (run_all [CallAddEra "e1" "New era" 5000 6000 "#cccccc"]
                         (new_Json ∅ "data.json")) ∅)
             (run_all [CallAddEra "e1" "New era" 5000 6000 "#cccccc"]
                      (new_Json ∅ "data.json"))) = None.
Proof.
  split; [reflexivity|]. split; [reflexivity|].
  exact (array_held_eras_are_never_saved
           [CallAddEra "e1" "New era" 5000 6000 "#cccccc"] ∅ "e1"
           (new_Json ∅ "data.json") eq_refl eq_refl).
Defined.

(** ** Sorting and the round trip *)

Lemma group_ids_sortGroups_childs g :
  group_ids (sortGroups_childs g) ≡ₚ group_ids g.
Proof.
  induction g as [i n c p v childs IH] using Group_ind'. simpl.
  apply Permutation_cons; [reflexivity|].
  rewrite (array_sort_Permutation compare_position).
  induction IH as [|x l Hx _ IHl]; simpl; [reflexivity|].
  rewrite Hx, IHl. reflexivity.
Qed.

Lemma forest_ids_sortGroups gs : forest_ids (sortGroups gs) ≡ₚ forest_ids gs.
Proof.
  unfold sortGroups, forest_ids.
  rewrite (array_sort_Permutation compare_position).
  induction gs as [|x l IHl]; simpl; [reflexivity|].
  rewrite group_ids_sortGroups_childs, IHl. reflexivity.
Qed.

Lemma sortGroups_idempotent gs : sortGroups (sortGroups gs) = sortGroups gs.
Proof. apply sortGroups_sorted_id. apply sortGroups_sorted. Qed.

(** X14. [#sortGroups] sorts and keeps the groups: afterwards the
    positions ascend at every level of the forest, the ids are those of
    before, as many times each, and sorting again changes nothing. *)
Theorem sortGroups_sorts_every_level (gs : list Group) :
  forest_sorted (sortGroups gs) = true
  /\ forest_ids (sortGroups gs) ≡ₚ forest_ids gs
  /\ sortGroups (sortGroups gs) = sortGroups gs.
Proof.
  split; [apply sortGroups_sorted|].
  split; [apply forest_ids_sortGroups | apply sortGroups_idempotent].
Qed.

(** X15. The sort is stable: the root groups of one position come out in
    the order they had, each with its childs sorted. *)
Theorem sortGroups_keeps_ties_in_order (p : Z) (gs : list Group) :
  filter (fun g => group_position g = p) (sortGroups gs)
  = map sortGroups_childs (filter (fun g => group_position g = p) gs).
Proof.
  unfold sortGroups. rewrite array_sort_stable.
  induction gs as [|g l IH]; [reflexivity|].
  cbn [map]. rewrite !filter_cons, sortGroups_childs_position, IH.
  case_decide; reflexivity.
Qed.

Lemma stringify_eras_idempotent e :
  stringify_eras (stringify_eras e) = stringify_eras e.
Proof.
  unfold stringify_eras. destruct e as [[] m]; simpl; [|reflexivity].
  unfold set_entries. simpl. f_equal.
  apply map_filter_id. intros i x Hix.
  apply map_lookup_filter_Some in Hix as [_ Hix]. exact Hix.
Qed.

(** X16. One round trip settles the document: what [save] and [load]
    give is given back unchanged by a second [save] and [load], whatever
    the document was. *)
Theorem save_load_settles (fs fs' : gmap string Stored) (j : Json) :
  data (load (save (path (load (save (path j) j fs) j))
                   (load (save (path j) j fs) j) fs')
             (load (save (path j) j fs) j))
  = data (load (save (path j) j fs) j).
Proof.
  unfold load at 1. rewrite read_parse_save.
  unfold sortGroups_root, stringify. simpl.
  unfold load. rewrite read_parse_save.
  unfold sortGroups_root, stringify, add_missing_fields. simpl.
  rewrite sortGroups_idempotent, stringify_eras_idempotent. reflexivity.
Qed.

(** * The widget side *)

(** ** [#fromJsonGroups] without the updates in place *)

Lemma vis_id_nest id p : vis_id (nest id p) = vis_id p.
Proof. unfold nest. destruct (vis_nestedGroups p); reflexivity. Qed.

Lemma nest_all_started ids0 ids b p :
  vis_nestedGroups p = Some ids0 -> vis_showNested p = Some b ->
  nest_all ids p
  = mkVisGroup (vis_id p) (vis_treeLevel p) (vis_content p) (vis_className p)
               (vis_position p) (vis_nestedInGroup p) (Some (ids0 ++ ids))
               (Some b).
Proof.
  revert ids0 p. induction ids as [|i ids IH]; intros ids0 p Hn Hs.
  - simpl. rewrite app_nil_r. destruct p; simpl in *; congruence.
  - cbn [nest_all foldl]. change (foldl _ ?q ids) with (nest_all ids q).
    rewrite (IH (ids0 ++ [i])).
    + unfold nest. rewrite Hn. simpl. rewrite <- app_assoc. reflexivity.
    + unfold nest. rewrite Hn. reflexivity.
    + unfold nest. rewrite Hn. exact Hs.
Qed.

Lemma nest_all_fresh ids p :
  vis_nestedGroups p = None -> vis_showNested p = None ->
  nest_all ids p
  = mkVisGroup (vis_id p) (vis_treeLevel p) (vis_content p) (vis_className p)
               (vis_position p) (vis_nestedInGroup p)
               (match ids with [] => None | _ => Some ids end)
               (match ids with [] => None | _ => Some true end).
Proof.
  intros Hn Hs. destruct ids as [|i ids].
  - destruct p; simpl in *; congruence.
  - cbn [nest_all foldl]. change (foldl _ ?q ids) with (nest_all ids q).
    rewrite (nest_all_started [i] ids true).
    + unfold nest. rewrite Hn. reflexivity.
    + unfold nest. rewrite Hn. reflexivity.
    + unfold nest. rewrite Hn. reflexivity.
Qed.

Lemma fromJsonGroups_loop_flat gs :
  Forall (fun g => forall level vg,
            vis_nestedGroups vg = None -> vis_showNested vg = None ->
            fromJsonGroups_in g level vg
            = (nest_all (map group_id
                           (List.filter group_visible (group_childs g))) vg,
               flat_map (flat_groups level (Some (vis_id vg)))
                        (group_childs g))) gs ->
  forall level parent,
    fromJsonGroups_loop fromJsonGroups_in gs level parent
    = (nest_all (map group_id (List.filter group_visible gs)) <$> parent,
       flat_map (flat_groups level (vis_id <$> parent)) gs).
Proof.
  induction 1 as [|g gs Hg _ IH]; intros level parent;
    cbn [fromJsonGroups_loop].
  { destruct parent; reflexivity. }
  destruct g as [i n c p v childs]. cbn [group_visible group_id group_name
    group_category group_position group_childs] in *.
  destruct v; cbn [negb List.filter map flat_map flat_groups group_visible].
  - destruct parent as [par|]; cbn [fmap option_fmap option_map].
    + rewrite Hg by reflexivity. cbn [vis_id set_nestedInGroup].
      rewrite IH. cbn [fmap option_fmap option_map].
      rewrite vis_id_nest. f_equal.
      rewrite nest_all_fresh by reflexivity. reflexivity.
    + rewrite Hg by reflexivity. rewrite IH.
      cbn [fmap option_fmap option_map vis_id]. f_equal.
      rewrite nest_all_fresh by reflexivity. reflexivity.
  - rewrite IH. reflexivity.
Qed.

Lemma fromJsonGroups_in_flat g level vg :
  vis_nestedGroups vg = None -> vis_showNested vg = None ->
  fromJsonGroups_in g level vg
  = (nest_all (map group_id (List.filter group_visible (group_childs g))) vg,
     flat_map (flat_groups level (Some (vis_id vg))) (group_childs g)).
Proof.
  revert level vg. induction g as [i n c p v childs IH] using Group_ind'.
  intros level vg Hn Hs. cbn [fromJsonGroups_in group_childs].
  rewrite (fromJsonGroups_loop_flat childs IH). reflexivity.
Qed.

Lemma fromJsonGroups_flat gs :
  fromJsonGroups gs = flat_map (flat_groups 1 None) gs.
Proof.
  unfold fromJsonGroups. rewrite fromJsonGroups_loop_flat; [reflexivity|].
  apply Forall_forall. intros g _ level vg. apply fromJsonGroups_in_flat.
Qed.

Lemma flat_groups_ids level parent g :
  map vis_id (flat_groups level parent g) = shown_ids g.
Proof.
  revert level parent.
  induction g as [i n c p v childs IH] using Group_ind'.
  intros level parent. simpl. destruct v; [|reflexivity]. simpl. f_equal.
  induction IH as [|x l Hx _ IHl]; simpl; [reflexivity|].
  rewrite map_app, Hx, IHl. reflexivity.
Qed.

(** X17. [#fromJsonGroups] gives the widget one group for each group
    that is to be seen, in the order of a walk from the roots: a group that
    is not visible is left out with its whole subtree, whatever the
    visibility of the groups below it. *)
Theorem fromJsonGroups_shows_the_visible (gs : list Group) :
  map vis_id (fromJsonGroups gs) = flat_map shown_ids gs.
Proof.
  rewrite fromJsonGroups_flat.
  induction gs as [|g l IH]; simpl; [reflexivity|].
  rewrite map_app, flat_groups_ids, IH. reflexivity.
Qed.






(** X19. A group made by [addGroup] comes last in the widget's list, at
    level 1 and without parent, after the groups that were shown before. *)
Theorem addGroup_shows_the_new_group_last (uuid name : string) (j : Json) :
  name <> "" ->
  fromJsonGroups (groups (data (addGroup uuid name j).2))
  = fromJsonGroups (groups (data j))
    ++ [mkVisGroup uuid 1 name ""
                   (Z.of_nat (length (groups (data j))) + 1)
                   None None None].
Proof.
  intros Hname. apply truthy_true in Hname.
  unfold addGroup. rewrite Hname. simpl.
  rewrite !fromJsonGroups_flat, flat_map_app. reflexivity.
Qed.

Lemma addGroup_shows_the_new_group_last_witness :
  "C" <> ""
  /\ map vis_id (fromJsonGroups (groups (data (addGroup "c" "C"
                                                 nested_json).2)))
     = ["a"; "b"; "c"].
Proof.
  assert (H : "C" <> "") by discriminate.
  split; [exact H|].
  rewrite (addGroup_shows_the_new_group_last "c" "C" nested_json H).
  reflexivity.
Defined.

(** ** [#updateRange] *)

Lemma date_set_inferred (t : Timestamp) : t <> 0 -> date_set (Some t) = true.
Proof. intros H. simpl. apply negb_true_iff, Z.eqb_neq, H. Qed.

(** X20. [#updateRange] infers the dates of the configuration once: when
    the instants it reads from the range of the items, or from the clock
    where the range has no bound, are not 0, a later call leaves the store as
    it is, whatever the range and the clock have become; dates that were set
    are never replaced. *)
Theorem updateRange_infers_once
    (range range' : ItemRange) (now1 now2 now1' now2' : Timestamp)
    (j : Json) :
  default now1 (range_min range) <> 0 ->
  default now2 (range_max range) <> 0 ->
  updateRange range' now1' now2' (updateRange range now1 now2 j)
  = updateRange range now1 now2 j
  /\ (date_set (conf_startDate (configuration (data j))) = true ->
      conf_startDate (configuration (data (updateRange range now1 now2 j)))
      = conf_startDate (configuration (data j)))
  /\ (date_set (conf_endDate (configuration (data j))) = true ->
      conf_endDate (configuration (data (updateRange range now1 now2 j)))
      = conf_endDate (configuration (data j))).
Proof.
  intros Hs He.
  apply date_set_inferred in Hs. apply date_set_inferred in He.
  unfold updateRange. rewrite !isValid_as_raw.
  revert Hs He.
  generalize (default now1 (range_min range)).
  generalize (default now2 (range_max range)).
  intros e0 s0 Hs He.
  destruct j as [p [[loc sd ed] g i ic e m] n].
  unfold set_data, set_configuration.
  cbn [data configuration conf_startDate conf_endDate conf_locale path
       dispatched groups items item_categories eras markers].
  destruct (date_set sd) eqn:Hsd, (date_set ed) eqn:Hed;
    repeat (progress
              (cbn [data configuration conf_startDate conf_endDate
                    conf_locale];
               rewrite ?Hsd, ?Hed, ?Hs, ?He));
    (split; [reflexivity|split; intros; (reflexivity || discriminate)]).
Qed.

Lemma updateRange_infers_once_witness :
  default 5 (range_min (mkItemRange (Some 1000) None)) <> 0
  /\ conf_endDate (configuration (data
       (updateRange (mkItemRange None (Some 9)) 6 8
          (updateRange (mkItemRange (Some 1000) None) 5 7 nested_json))))
     = conf_endDate (configuration (data
         (updateRange (mkItemRange (Some 1000) None) 5 7 nested_json))).
Proof.
  assert (H1 : default 5 (range_min (mkItemRange (Some 1000) None)) <> 0)
    by discriminate.
  assert (H2 : default 7 (range_max (mkItemRange (Some 1000) None)) <> 0)
    by discriminate.
  split; [exact H1|].
  rewrite (proj1 (updateRange_infers_once (mkItemRange (Some 1000) None)
                    (mkItemRange None (Some 9)) 5 7 6 8 nested_json H1 H2)).
  reflexivity.
Defined.

(** ** The callbacks of the markers *)

(** X21. The callbacks of the widget keep its custom times and the
    markers of the store in step: when the widget holds one custom time for
    each marker id, it still does after the calls that [#onDoubleClicked]
    makes on it, whether the store took the change or refused it and whether
    the timeline is locked or not; [#onMarkerTitleChange] and
    [#onMarkerDateChange] neither add nor remove a marker. *)
Theorem marker_callbacks_keep_the_widget_in_step
    (readOnly : bool) (uuid id title : string) (time : Timestamp)
    (properties : ClickProperties) (j : Json) :
  after_calls (dom (markers (data j)))
              (onDoubleClicked readOnly uuid properties j).2
  = dom (markers (data (onDoubleClicked readOnly uuid properties j).1))
  /\ dom (markers (data (onMarkerTitleChange readOnly id title j)))
     = dom (markers (data j))
  /\ dom (markers (data (onMarkerDateChange readOnly id time j)))
     = dom (markers (data j)).
Proof.
  split; [|split].
  - unfold onDoubleClicked. destruct readOnly; [reflexivity|].
    destruct (String.eqb (click_what properties) "custom-time").
    + unfold removeMarker.
      destruct (markers (data j) !! click_customTime properties) eqn:Hm;
        cbn; [|reflexivity].
      rewrite dom_delete_L. reflexivity.
    + destruct (String.eqb (click_what properties) "axis"); [|reflexivity].
      unfold addMarker.
      destruct (markers (data j) !! uuid) eqn:Hm; cbn; [reflexivity|].
      rewrite dom_insert_L. reflexivity.
  - unfold onMarkerTitleChange. destruct readOnly; [reflexivity|].
    unfold updateMarker.
    destruct (markers (data j) !! id) eqn:Hm; [|reflexivity]. cbn.
    apply dom_insert_lookup_L. rewrite Hm. eauto.
  - unfold onMarkerDateChange. destruct readOnly; [reflexivity|].
    unfold updateMarker.
    destruct (markers (data j) !! id) eqn:Hm; [|reflexivity]. cbn.
    apply dom_insert_lookup_L. rewrite Hm. eauto.
Qed.

(** ** [Utils.dateToString] *)

Lemma string_length_app (a b : string) :
  String.length (a +:+ b) = (String.length a + String.length b)%nat.
Proof. induction a as [|c a IH]; simpl; [reflexivity|]. rewrite IH. reflexivity. Qed.

Lemma digits_table_true : digits_table = true.
Proof. vm_compute. reflexivity. Qed.

Lemma digits_of_nat (n : nat) :
  (n < 100)%nat ->
  String.length (pretty n) = if (n <? 10)%nat then 1%nat else 2%nat.
Proof.
  intros Hn. pose proof digits_table_true as H. unfold digits_table in H.
  apply andb_true_iff in H as [H _].
  rewrite forallb_forall in H. apply Nat.eqb_eq, H, in_seq. lia.
Qed.

Lemma digits_of_year (y : Z) :
  (1000 <= y <= 9999)%Z -> String.length (pretty y) = 4%nat.
Proof.
  intros Hy. pose proof digits_table_true as H. unfold digits_table in H.
  apply andb_true_iff in H as [_ H].
  rewrite forallb_forall in H.
  specialize (H (Z.to_nat (y - 1000))).
  replace (1000 + Z.of_nat (Z.to_nat (y - 1000)))%Z with y in H by lia.
  apply Nat.eqb_eq, H, in_seq. lia.
Qed.

(** X22. For a date of the years 1000 to 9999, [dateToString] gives the
    19 characters of a local date and time in every month but October: the
    padding of the month is decided on the month counted from 0, so October
    is written with three digits and the string has 20 characters. *)
Theorem dateToString_length (d : DateFields) :
  four_digit_date d ->
  String.length (dateToString (Some d))
  = if (getMonth d =? 9)%nat then 20%nat else 19%nat.
Proof.
  intros (Hy & Hm & Hd & Hh & Hmin & Hs).
  unfold dateToString.
  rewrite (digits_of_nat (getMonth d)), (digits_of_nat (getDate d)),
    (digits_of_nat (getHours d)), (digits_of_nat (getMinutes d)),
    (digits_of_nat (getSeconds d)) by lia.
  repeat match goal with
         | |- context [if (?n <? 10)%nat then _ else _] =>
             destruct (Nat.ltb_spec n 10)
         end;
    destruct (Nat.eqb_spec (getMonth d) 9);
    cbn [Nat.eqb];
    rewrite ?string_length_app, ?(digits_of_year _ Hy),
      ?(digits_of_nat (getMonth d + 1)), ?(digits_of_nat (getDate d)),
      ?(digits_of_nat (getHours d)), ?(digits_of_nat (getMinutes d)),
      ?(digits_of_nat (getSeconds d)) by lia;
    repeat match goal with
           | |- context [if (?n <? 10)%nat then _ else _] =>
               destruct (Nat.ltb_spec n 10)
           end;
    cbn [String.length]; lia.
Qed.

Lemma dateToString_length_witness :
  four_digit_date (mkDateFields 2024 9 5 7 30 0)
  /\ String.length (dateToString (Some (mkDateFields 2024 9 5 7 30 0)))
     = 20%nat.
Proof.
  assert (H : four_digit_date (mkDateFields 2024 9 5 7 30 0)).
  { unfold four_digit_date. simpl. lia. }
  split; [exact H|].
  exact (dateToString_length (mkDateFields 2024 9 5 7 30 0) H).
Defined.
